(** * RqstRush: a reconfigurable HTTP load generator

    The repository holds two variants of one Go program:
    - [src/main.go], the simple variant: workers loop forever on
      [client.Do], [RestartWorkers] only waits on the [sync.WaitGroup];
    - the rate-limited variant ([jobQueue], retry loop, tuned transport),
      in which workers range over a job channel fed by a producer goroutine.

    [LoadConfig] and [LogStats] are textually the same in both files and are
    embedded once.  Each variant's worker body is embedded as a function of
    the answers of its environment (URL parsing, transport results, random
    draws); the goroutines of each variant are then composed into a labelled
    transition system whose labels are the scheduler's choices. *)

From Stdlib Require Import ZArith List String Bool Lia.
From stdpp Require Import base option list.

Import ListNotations.
Local Open Scope Z_scope.

(** ** Shared data model *)

(** [type Config struct { TargetURL string; Concurrency int }] *)
Record Config := mkConfig { TargetURL : string; Concurrency : Z }.

(** The zero value of [Config], the content of the global [config] at start. *)
Definition zero_Config : Config := mkConfig EmptyString 0.

(** [time.Time] as an instant and [time.Duration], both in nanoseconds. *)
Definition Time := Z.
Definition Duration := Z.
Definition Millisecond : Duration := 1000000.
Definition Second : Duration := 1000 * Millisecond.

(** The zero [time.Time], initial value of [lastModTime]. *)
Definition zero_Time : Time := 0.

(** The lines the program hands to [log]. *)
Inductive LogLine :=
| LogOpenFailed                       (* "Failed to open config file:" *)
| LogReadFailed                       (* "Failed to read config file:" *)
| LogParseFailed                      (* "Failed to parse config file:" *)
| LogConfigUpdated (c : Config)       (* "Config updated:" *)
| LogRequestCreationFailed            (* "Request creation failed:" *)
| LogRequestFailed                    (* "Request failed:" *)
| LogRequestFailedAttempt (n : Z)     (* "Request failed (attempt %d)" *)
| LogRequestsInLastSecond (count : Z) (* "Requests in last second: %d" *)
| LogTimeTaken (elapsed : Duration).  (* "Time taken for last 100k requests" *)

(** ** ConfigStore: [LoadConfig] *)

(** The globals [config] and [lastModTime]. *)
Record ConfigStore := mkStore { config : Config; lastModTime : Time }.

Definition initial_store : ConfigStore := mkStore zero_Config zero_Time.

(** What the file system answers during one call: [os.Stat] gives an error
    or the modification time; [os.Open] gives an error or a file, on which
    [json.Decoder.Decode] gives an error or a [Config]. *)
Inductive OpenResult :=
| OpenError
| Opened (decoded : option Config).

Record FileObs := mkObs { obs_stat : option Time; obs_open : OpenResult }.

(** What one call does to the shared memory and the log, in program order. *)
Inductive Effect :=
| Log (l : LogLine)
| ConfigLock                (* configLock.Lock() *)
| ConfigUnlock              (* configLock.Unlock() *)
| StoreConfig (c : Config)  (* config = newConfig *)
| StoreLastMod (t : Time)   (* lastModTime = fileInfo.ModTime() *)
| FileClose.                (* deferred file.Close() *)

(** [func LoadConfig() bool]: the result, the globals after the call and
    the effects of the call. *)
Definition LoadConfig (f : FileObs) (st : ConfigStore)
  : bool * ConfigStore * list Effect :=
  match obs_stat f with
  | None => (false, st, [Log LogOpenFailed])
  | Some modTime =>
      if modTime =? lastModTime st then (false, st, [])
      else
        match obs_open f with
        | OpenError => (false, st, [Log LogReadFailed])
        | Opened None => (false, st, [Log LogParseFailed; FileClose])
        | Opened (Some newConfig) =>
            (true,
             mkStore newConfig modTime,
             [ConfigLock; StoreConfig newConfig; ConfigUnlock;
              StoreLastMod modTime; Log (LogConfigUpdated newConfig);
              FileClose])
        end
  end.

Definition changed (r : bool * ConfigStore * list Effect) : bool := fst (fst r).
Definition store_after (r : bool * ConfigStore * list Effect) : ConfigStore :=
  snd (fst r).

(** Successive polls: the results of the calls and the final globals. *)
Fixpoint LoadConfig_many (fs : list FileObs) (st : ConfigStore)
  : list bool * ConfigStore :=
  match fs with
  | [] => ([], st)
  | f :: fs' =>
      let r := LoadConfig f st in
      let '(bs, st') := LoadConfig_many fs' (store_after r) in
      (changed r :: bs, st')
  end.

(** The source is unreadable: [os.Stat] fails, or [os.Open] fails (which
    the call finds out only when the marker differs). *)
Definition unreadable (f : FileObs) : Prop :=
  obs_stat f = None \/ obs_open f = OpenError.

(** The modification marker of the source differs from the recorded one. *)
Definition marker_changed (f : FileObs) (st : ConfigStore) : Prop :=
  exists t, obs_stat f = Some t /\ t <> lastModTime st.

Definition marker_unchanged (f : FileObs) (st : ConfigStore) : Prop :=
  obs_stat f = Some (lastModTime st).

(** The content of the source parses. *)
Definition parses (f : FileObs) : Prop :=
  exists c, obs_open f = Opened (Some c).

Definition parse_fails (f : FileObs) : Prop := obs_open f = Opened None.

(** ** RequestCounter: [reqCounter uint64] *)

Definition uint64_modulus : Z := 2 ^ 64.

(** [atomic.AddUint64(&reqCounter, delta)]: the new value, which is both
    stored and returned. *)
Definition AddUint64 (v delta : Z) : Z := (v + delta) mod uint64_modulus.

(** [atomic.SwapUint64(&reqCounter, new)]: the stored value and the
    returned (old) value. *)
Definition SwapUint64 (v new : Z) : Z * Z := (new, v).

(** The two atomic operations the program applies to the counter: the
    worker's increment and the reporter's read-and-clear.  Each is one
    indivisible step, so a concurrent history is a sequence of them. *)
Inductive CounterOp := OpAdd | OpSwap.

(** Runs a history from counter value [v]: the final value and the counts
    the swaps returned, in order. *)
Fixpoint run_counter (ops : list CounterOp) (v : Z) : Z * list Z :=
  match ops with
  | [] => (v, [])
  | OpAdd :: ops' => run_counter ops' (AddUint64 v 1)
  | OpSwap :: ops' =>
      let '(v', old) := SwapUint64 v 0 in
      let '(vf, outs) := run_counter ops' v' in
      (vf, old :: outs)
  end.

Fixpoint count_adds (ops : list CounterOp) : Z :=
  match ops with
  | [] => 0
  | OpAdd :: ops' => 1 + count_adds ops'
  | OpSwap :: ops' => count_adds ops'
  end.

Definition sumZ (l : list Z) : Z := fold_right Z.add 0 l.

(** ** StatsReporter: [LogStats] *)

(** [time.NewTicker(1 * time.Second)] *)
Definition LogStats_period : Duration := 1 * Second.

(** The hardcoded bound of [if count >= 100000]. *)
Definition milestone : Z := 100000.

(** One iteration of [for range ticker.C].  [now_since] is the clock read
    by [time.Since(startTime)], [now_reset] the one read by
    [startTime = time.Now()].  Result: [startTime] and [reqCounter] after
    the iteration, and the lines logged.  The elapsed time is kept as a
    duration; its rendering in seconds belongs to the log format. *)
Definition LogStats_tick (now_since now_reset : Time)
    (startTime : Time) (reqCounter : Z) : Time * Z * list LogLine :=
  let '(reqCounter', count) := SwapUint64 reqCounter 0 in
  let elapsed := now_since - startTime in
  if milestone <=? count
  then (now_reset, reqCounter',
        [LogRequestsInLastSecond count; LogTimeTaken elapsed])
  else (startTime, reqCounter', [LogRequestsInLastSecond count]).

(** ** Worker bodies *)

(** Result of [client.Do(req)]: a response with some status code, or a
    transport error. *)
Inductive DoResult :=
| DoOk (status : Z)
| DoErr.

(** The environment of one loop iteration of a worker. *)
Record WorkerEnv := mkEnv {
  request_ok : string -> bool;   (* does http.NewRequest accept the URL *)
  do_result : nat -> DoResult;   (* outcome of the k-th client.Do *)
  draw : nat -> Z                (* k-th raw draw of the random source *)
}.

(** [rand.Intn(n)] for [n > 0]: the raw draw reduced to [[0, n)]. *)
Definition Intn (raw n : Z) : Z := raw mod n.

(** What a worker does during one iteration, in program order. *)
Inductive WEvent :=
| WRLock                              (* configLock.RLock() *)
| WReadURL (url : string)             (* url := config.TargetURL *)
| WRUnlock                            (* configLock.RUnlock() *)
| WNewRequest (url : string) (ok : bool)
| WDo (attempt : Z)                   (* client.Do(req), attempt index i *)
| WBodyClose                          (* resp.Body.Close() *)
| WAddCounter                         (* atomic.AddUint64(&reqCounter, 1) *)
| WLog (l : LogLine)
| WSleep (d : Duration).              (* time.Sleep(d) *)

Definition is_Do (e : WEvent) : bool :=
  match e with WDo _ => true | _ => false end.

Definition is_Add (e : WEvent) : bool :=
  match e with WAddCounter => true | _ => false end.

(** Number of [client.Do] calls in a trace. *)
Definition attempts (evs : list WEvent) : nat := length (List.filter is_Do evs).

(** How a loop body hands control back: to the next iteration, or out of
    the function (which runs the deferred [Done]). *)
Inductive Flow := Next | Return.

(** ** The simple variant ([src/main.go]) *)

Module Simple.

(** One iteration of the [for] loop of [worker] (lines 70-89), started with
    [reqCounter = counter]; [url] is the value read under the read lock.
    Both error branches are [continue]; the loop has no [break] and no
    [return]. *)
Definition worker_iteration (env : WorkerEnv) (url : string) (counter : Z)
  : Flow * Z * list WEvent :=
  let pre := [WRLock; WReadURL url; WRUnlock] in
  if request_ok env url then
    match do_result env 0%nat with
    | DoErr =>
        (Next, counter,
         pre ++ [WNewRequest url true; WDo 0; WLog LogRequestFailed])
    | DoOk _ =>
        (Next, AddUint64 counter 1,
         pre ++ [WNewRequest url true; WDo 0; WBodyClose; WAddCounter])
    end
  else
    (Next, counter,
     pre ++ [WNewRequest url false; WLog LogRequestCreationFailed]).

(** A worker goroutine: the client it was started with and where it is. *)
Inductive WorkerPC :=
| WLoop       (* at the head of the [for] loop *)
| WExited.    (* returned, deferred [waitGroup.Done()] executed *)

Record Worker := mkWorker { w_client : nat; w_pc : WorkerPC }.

(** The controlling thread: [main] up to its call of [RestartWorkers], then
    [MonitorConfig].  [main] starts [MonitorConfig] before that call, but
    its ticker first fires after 5 seconds, so the two calls of
    [RestartWorkers] are taken in sequence. *)
Inductive CtlPC :=
| CMain          (* main, before LoadConfig() (line 142) *)
| CMonitor       (* MonitorConfig, waiting for the ticker (line 95) *)
| RCheck         (* RestartWorkers: if workersActive (line 105) *)
| RWait          (* workerWg.Wait() (line 107) *)
| RNewClient     (* client := &http.Client{...} (lines 111-112) *)
| RResetWg       (* workerWg = sync.WaitGroup{} (line 113) *)
| RSetActive     (* workersActive = true (line 114) *)
| RSpawn (i : Z). (* for i := 0; i < config.Concurrency; i++ (116-119) *)

Record State := mkState {
  store : ConfigStore;      (* config, lastModTime *)
  reqCounter : Z;
  workerWg : Z;             (* counter of the WaitGroup *)
  workersActive : bool;
  workers : list Worker;    (* goroutines started by [go worker], in order *)
  ctl : CtlPC;
  client : nat;             (* the local [client] of RestartWorkers *)
  clients : nat;            (* http.Client values allocated so far *)
  stats : option Time;      (* LogStats: [startTime], once it is set *)
  panicked : bool
}.

Definition initial : State :=
  mkState initial_store 0 0 false [] CMain 0%nat 0%nat None false.

Definition set_store (x : ConfigStore) (s : State) : State :=
  mkState x (reqCounter s) (workerWg s) (workersActive s) (workers s) (ctl s)
          (client s) (clients s) (stats s) (panicked s).
Definition set_counter (x : Z) (s : State) : State :=
  mkState (store s) x (workerWg s) (workersActive s) (workers s) (ctl s)
          (client s) (clients s) (stats s) (panicked s).
Definition set_wg (x : Z) (s : State) : State :=
  mkState (store s) (reqCounter s) x (workersActive s) (workers s) (ctl s)
          (client s) (clients s) (stats s) (panicked s).
Definition set_active (x : bool) (s : State) : State :=
  mkState (store s) (reqCounter s) (workerWg s) x (workers s) (ctl s)
          (client s) (clients s) (stats s) (panicked s).
Definition set_workers (x : list Worker) (s : State) : State :=
  mkState (store s) (reqCounter s) (workerWg s) (workersActive s) x (ctl s)
          (client s) (clients s) (stats s) (panicked s).
Definition set_ctl (x : CtlPC) (s : State) : State :=
  mkState (store s) (reqCounter s) (workerWg s) (workersActive s) (workers s) x
          (client s) (clients s) (stats s) (panicked s).
(** A new [http.Client] is allocated and bound to the local [client]. *)
Definition new_client (s : State) : State :=
  mkState (store s) (reqCounter s) (workerWg s) (workersActive s) (workers s)
          (ctl s) (clients s) (S (clients s)) (stats s) (panicked s).
Definition set_stats (x : option Time) (s : State) : State :=
  mkState (store s) (reqCounter s) (workerWg s) (workersActive s) (workers s)
          (ctl s) (client s) (clients s) x (panicked s).
Definition set_panicked (s : State) : State :=
  mkState (store s) (reqCounter s) (workerWg s) (workersActive s) (workers s)
          (ctl s) (client s) (clients s) (stats s) true.

(** [wg.Done()]: the counter goes down by one; a negative counter panics. *)
Definition Done (s : State) : State :=
  if workerWg s <=? 0 then set_panicked s else set_wg (workerWg s - 1) s.

(** The scheduler's choices. *)
Inductive Label :=
| LLoad (f : FileObs)                  (* the controller calls LoadConfig *)
| LCtl                                 (* next step of RestartWorkers *)
| LWorker (w : nat) (env : WorkerEnv)  (* next step of worker [w] *)
| LStats (now_since now_reset : Time). (* next step of LogStats *)

(** [main] calls [RestartWorkers] whatever [LoadConfig] returned (lines
    142, 151); [MonitorConfig] calls it when [LoadConfig] returned true
    (lines 96-97). *)
Definition load_step (f : FileObs) (s : State) : option State :=
  let r := LoadConfig f (store s) in
  match ctl s with
  | CMain => Some (set_ctl RCheck (set_store (store_after r) s))
  | CMonitor =>
      Some (set_ctl (if changed r then RCheck else CMonitor)
                    (set_store (store_after r) s))
  | _ => None
  end.

(** [RestartWorkers] (lines 103-120), one statement at a time.  [Wait]
    is enabled only when the counter is zero. *)
Definition RestartWorkers_step (s : State) : option State :=
  match ctl s with
  | CMain | CMonitor => None
  | RCheck => Some (set_ctl (if workersActive s then RWait else RNewClient) s)
  | RWait => if workerWg s =? 0 then Some (set_ctl RNewClient s) else None
  | RNewClient => Some (set_ctl RResetWg (new_client s))
  | RResetWg => Some (set_ctl RSetActive (set_wg 0 s))
  | RSetActive => Some (set_ctl (RSpawn 0) (set_active true s))
  | RSpawn i =>
      if i <? Concurrency (config (store s))
      then Some (set_ctl (RSpawn (i + 1))
                   (set_workers (workers s ++ [mkWorker (client s) WLoop])
                      (set_wg (workerWg s + 1) s)))
      else Some (set_ctl CMonitor s)
  end.

(** A worker at the head of its loop runs one iteration. *)
Definition worker_step (w : nat) (env : WorkerEnv) (s : State) : option State :=
  match workers s !! w with
  | Some (mkWorker c WLoop) =>
      let '(flow, counter, _) :=
        worker_iteration env (TargetURL (config (store s))) (reqCounter s) in
      match flow with
      | Next => Some (set_counter counter s)
      | Return =>
          Some (Done (set_workers (<[w := mkWorker c WExited]> (workers s))
                        (set_counter counter s)))
      end
  | _ => None
  end.

(** [LogStats]: line 125 on the first step, then one tick per step. *)
Definition stats_step (now_since now_reset : Time) (s : State) : option State :=
  match stats s with
  | None => Some (set_stats (Some now_reset) s)
  | Some startTime =>
      let '(startTime', counter, _) :=
        LogStats_tick now_since now_reset startTime (reqCounter s) in
      Some (set_stats (Some startTime') (set_counter counter s))
  end.

Definition step (l : Label) (s : State) : option State :=
  if panicked s then None
  else
    match l with
    | LLoad f => load_step f s
    | LCtl => RestartWorkers_step s
    | LWorker w env => worker_step w env s
    | LStats a b => stats_step a b s
    end.

(** A schedule is a list of choices; [run] fails when one is not enabled. *)
Fixpoint run (ls : list Label) (s : State) : option State :=
  match ls with
  | [] => Some s
  | l :: ls' =>
      match step l s with
      | Some s' => run ls' s'
      | None => None
      end
  end.

Definition reachable (s : State) : Prop := exists ls, run ls initial = Some s.

(** The workers started with client [c]. *)
Definition bound_to (c : nat) (w : Worker) : bool := Nat.eqb (w_client w) c.

Definition generation (c : nat) (s : State) : list Worker :=
  List.filter (bound_to c) (workers s).

(** The thread is inside [RestartWorkers], at or before the join. *)
Definition at_join (pc : CtlPC) : bool :=
  match pc with RCheck | RWait => true | _ => false end.

Definition is_load (l : Label) : bool :=
  match l with LLoad _ => true | _ => false end.

(** A restart that has found a generation active and has to wait for a
    positive WaitGroup counter. *)
Definition blocked (s : State) : Prop :=
  0 < workerWg s /\
  (ctl s = RWait \/ (ctl s = RCheck /\ workersActive s = true)).

(** A restart entered with a concurrency of at most zero, anywhere between
    its call and its return. *)
Definition idle_restart (s0 s : State) : Prop :=
  store s = store s0 /\ workers s = workers s0 /\
  match ctl s with
  | RCheck | RWait | RNewClient | RResetWg | RSetActive => True
  | RSpawn i => i = 0 /\ workersActive s = true
  | CMonitor => workersActive s = true
  | CMain => False
  end.

(** What holds in every state the program can reach. *)
Definition Inv (s : State) : Prop :=
  panicked s = false /\
  workerWg s = Z.of_nat (length (workers s)) /\
  Forall (fun w => w_pc w = WLoop) (workers s) /\
  (workersActive s = false -> workers s = []) /\
  match ctl s with
  | CMain => workersActive s = false
  | RNewClient | RResetWg | RSetActive => workers s = []
  | RCheck | RWait => True
  | RSpawn _ | CMonitor => workersActive s = true
  end.

(** A run that resizes the pool: a configuration with two workers is loaded
    and started, then one with four workers is loaded, which calls
    [RestartWorkers] again. *)
Definition resize_schedule : list Label :=
  LLoad (mkObs (Some 1) (Opened (Some (mkConfig "http://a" 2))))
    :: repeat LCtl 7
    ++ [LLoad (mkObs (Some 2) (Opened (Some (mkConfig "http://a" 4))))].

Definition resize_state : State :=
  mkState (mkStore (mkConfig "http://a" 4) 2) 0 2 true
          [mkWorker 0 WLoop; mkWorker 0 WLoop] RCheck 0%nat 1%nat None false.

(** The claim that a restart blocks whenever a generation is active, as
    stated: from any reachable state in which [RestartWorkers] has just
    been called with [workersActive] set, the thread never gets past the
    join. *)
Definition restart_always_blocks : Prop :=
  forall s, reachable s -> ctl s = RCheck -> workersActive s = true ->
  forall ls s', run ls s = Some s' -> at_join (ctl s') = true.

End Simple.

(** ** The rate-limited variant *)

Module RateLimited.

(** [maxRetries := 3] *)
Definition maxRetries : Z := 3.

(** The retry loop [for i := 0; i < maxRetries; i++] entered at index [i]
    with [k] random draws already consumed: the counter after the loop, the
    draws consumed and the events.  [fuel] bounds the iterations. *)
Fixpoint retry_loop (fuel : nat) (env : WorkerEnv) (i : Z) (k : nat)
    (counter : Z) : option (Z * nat * list WEvent) :=
  match fuel with
  | O => None
  | S fuel' =>
      if i <? maxRetries then
        match do_result env (Z.to_nat i) with
        | DoOk _ =>
            (* break *)
            Some (AddUint64 counter 1, k, [WDo i; WBodyClose; WAddCounter])
        | DoErr =>
            let d := Intn (draw env k) 100 * Millisecond in
            match retry_loop fuel' env (i + 1) (S k) counter with
            | Some (c, k', evs) =>
                Some (c, k',
                      [WDo i; WLog (LogRequestFailedAttempt (i + 1)); WSleep d]
                        ++ evs)
            | None => None
            end
        end
      else Some (counter, k, [])
  end.

(** Fuel that lets the loop reach its exit test from index 0. *)
Definition retry_fuel : nat := S (Z.to_nat maxRetries).


(** One iteration of [for range jobQueue] in [worker] (lines 73-100). *)
Definition worker_iteration (env : WorkerEnv) (url : string) (counter : Z)
  : option (Flow * Z * list WEvent) :=
  let pre := [WRLock; WReadURL url; WRUnlock] in
  if request_ok env url then
    match retry_loop retry_fuel env 0 0%nat counter with
    | Some (c, k, evs) =>
        Some (Next, c,
              pre ++ [WNewRequest url true] ++ evs
                  ++ [WSleep (Intn (draw env k) 10 * Millisecond)])
    | None => None
    end
  else
    (* continue *)
    Some (Next, counter,
          pre ++ [WNewRequest url false; WLog LogRequestCreationFailed]).

(** A channel of [struct{}]: capacity, number of buffered values, closed. *)
Record Chan := mkChan { ch_cap : nat; ch_len : nat; ch_closed : bool }.

Inductive WorkerPC :=
| WStart             (* started, [jobQueue] of the range clause not yet read *)
| WRecvNil           (* receiving from a nil channel: blocked forever *)
| WRecv (ch : nat)   (* receiving from channel [ch] *)
| WBody (ch : nat)   (* holds a job, about to run the loop body *)
| WExited.           (* returned, deferred [wg.Done()] executed *)

Record Worker := mkWorker { w_client : nat; w_pc : WorkerPC }.

(** The goroutine of lines 146-150. *)
Inductive ProducerPC :=
| PEval              (* about to read [jobQueue] for the send *)
| PSendNil           (* sending on a nil channel: blocked forever *)
| PSend (ch : nat).  (* sending on channel [ch] *)

Inductive CtlPC :=
| CMain          (* main, before LoadConfig() (line 173) *)
| CMonitor       (* MonitorConfig, waiting for the ticker (line 106) *)
| RCheck         (* RestartWorkers: if workersActive (line 116) *)
| RClose         (* close(jobQueue) (line 118) *)
| RWait          (* workerWg.Wait() (line 119) *)
| RNewClient     (* client := &http.Client{...} (lines 123-135) *)
| RResetWg       (* workerWg = sync.WaitGroup{} (line 137) *)
| RSetActive     (* workersActive = true (line 138) *)
| RMake          (* jobQueue = make(chan struct{}, n) (line 139) *)
| RSpawn (i : Z) (* for i := 0; i < config.Concurrency; i++ (141-144) *)
| RGoProducer.   (* go func() { for { jobQueue <- struct{}{} } }() *)

Record State := mkState {
  store : ConfigStore;
  reqCounter : Z;
  workerWg : Z;
  workersActive : bool;
  jobQueue : option nat;        (* nil, or the channel it refers to *)
  chans : list Chan;            (* the channels made so far *)
  workers : list Worker;
  producers : list ProducerPC;
  ctl : CtlPC;
  client : nat;
  clients : nat;
  stats : option Time;
  panicked : bool
}.

Definition initial : State :=
  mkState initial_store 0 0 false None [] [] [] CMain 0%nat 0%nat None false.

Definition set_store (x : ConfigStore) (s : State) : State :=
  mkState x (reqCounter s) (workerWg s) (workersActive s) (jobQueue s)
          (chans s) (workers s) (producers s) (ctl s) (client s) (clients s)
          (stats s) (panicked s).
Definition set_counter (x : Z) (s : State) : State :=
  mkState (store s) x (workerWg s) (workersActive s) (jobQueue s)
          (chans s) (workers s) (producers s) (ctl s) (client s) (clients s)
          (stats s) (panicked s).
Definition set_wg (x : Z) (s : State) : State :=
  mkState (store s) (reqCounter s) x (workersActive s) (jobQueue s)
          (chans s) (workers s) (producers s) (ctl s) (client s) (clients s)
          (stats s) (panicked s).
Definition set_active (x : bool) (s : State) : State :=
  mkState (store s) (reqCounter s) (workerWg s) x (jobQueue s)
          (chans s) (workers s) (producers s) (ctl s) (client s) (clients s)
          (stats s) (panicked s).
Definition set_jobQueue (x : option nat) (s : State) : State :=
  mkState (store s) (reqCounter s) (workerWg s) (workersActive s) x
          (chans s) (workers s) (producers s) (ctl s) (client s) (clients s)
          (stats s) (panicked s).
Definition set_chans (x : list Chan) (s : State) : State :=
  mkState (store s) (reqCounter s) (workerWg s) (workersActive s) (jobQueue s)
          x (workers s) (producers s) (ctl s) (client s) (clients s)
          (stats s) (panicked s).
Definition set_workers (x : list Worker) (s : State) : State :=
  mkState (store s) (reqCounter s) (workerWg s) (workersActive s) (jobQueue s)
          (chans s) x (producers s) (ctl s) (client s) (clients s)
          (stats s) (panicked s).
Definition set_producers (x : list ProducerPC) (s : State) : State :=
  mkState (store s) (reqCounter s) (workerWg s) (workersActive s) (jobQueue s)
          (chans s) (workers s) x (ctl s) (client s) (clients s)
          (stats s) (panicked s).
Definition set_ctl (x : CtlPC) (s : State) : State :=
  mkState (store s) (reqCounter s) (workerWg s) (workersActive s) (jobQueue s)
          (chans s) (workers s) (producers s) x (client s) (clients s)
          (stats s) (panicked s).
Definition new_client (s : State) : State :=
  mkState (store s) (reqCounter s) (workerWg s) (workersActive s) (jobQueue s)
          (chans s) (workers s) (producers s) (ctl s) (clients s)
          (S (clients s)) (stats s) (panicked s).
Definition set_stats (x : option Time) (s : State) : State :=
  mkState (store s) (reqCounter s) (workerWg s) (workersActive s) (jobQueue s)
          (chans s) (workers s) (producers s) (ctl s) (client s) (clients s)
          x (panicked s).
Definition set_panicked (s : State) : State :=
  mkState (store s) (reqCounter s) (workerWg s) (workersActive s) (jobQueue s)
          (chans s) (workers s) (producers s) (ctl s) (client s) (clients s)
          (stats s) true.

(** [wg.Done()]: the counter goes down by one; a negative counter panics. *)
Definition Done (s : State) : State :=
  if workerWg s <=? 0 then set_panicked s else set_wg (workerWg s - 1) s.

(** [close(jobQueue)]: closing a nil or a closed channel panics. *)
Definition close_jobQueue (s : State) : State :=
  match jobQueue s with
  | None => set_panicked s
  | Some ch =>
      match chans s !! ch with
      | Some (mkChan cap len false) =>
          set_chans (<[ch := mkChan cap len true]> (chans s)) s
      | _ => set_panicked s
      end
  end.

(** [jobQueue = make(chan struct{}, n)]: a negative size panics. *)
Definition make_jobQueue (n : Z) (s : State) : State :=
  if n <? 0 then set_panicked s
  else set_jobQueue (Some (length (chans s)))
         (set_chans (chans s ++ [mkChan (Z.to_nat n) 0 false]) s).

Inductive Label :=
| LLoad (f : FileObs)                  (* the controller calls LoadConfig *)
| LCtl                                 (* next step of RestartWorkers *)
| LWorker (w : nat) (env : WorkerEnv)  (* next step of worker [w] *)
| LProducer (p : nat)                  (* next step of producer [p] *)
| LHandoff (p w : nat)                 (* producer [p] hands a job to the
                                          waiting worker [w] *)
| LStats (now_since now_reset : Time). (* next step of LogStats *)

Definition load_step (f : FileObs) (s : State) : option State :=
  let r := LoadConfig f (store s) in
  match ctl s with
  | CMain => Some (set_ctl RCheck (set_store (store_after r) s))
  | CMonitor =>
      Some (set_ctl (if changed r then RCheck else CMonitor)
                    (set_store (store_after r) s))
  | _ => None
  end.

(** [RestartWorkers] (lines 114-151), one statement at a time. *)
Definition RestartWorkers_step (s : State) : option State :=
  match ctl s with
  | CMain | CMonitor => None
  | RCheck => Some (set_ctl (if workersActive s then RClose else RNewClient) s)
  | RClose => Some (set_ctl RWait (close_jobQueue s))
  | RWait => if workerWg s =? 0 then Some (set_ctl RNewClient s) else None
  | RNewClient => Some (set_ctl RResetWg (new_client s))
  | RResetWg => Some (set_ctl RSetActive (set_wg 0 s))
  | RSetActive => Some (set_ctl RMake (set_active true s))
  | RMake =>
      Some (set_ctl (RSpawn 0)
              (make_jobQueue (Concurrency (config (store s))) s))
  | RSpawn i =>
      if i <? Concurrency (config (store s))
      then Some (set_ctl (RSpawn (i + 1))
                   (set_workers (workers s ++ [mkWorker (client s) WStart])
                      (set_wg (workerWg s + 1) s)))
      else Some (set_ctl RGoProducer s)
  | RGoProducer =>
      Some (set_ctl CMonitor (set_producers (producers s ++ [PEval]) s))
  end.

Definition set_worker (w : nat) (x : Worker) (s : State) : State :=
  set_workers (<[w := x]> (workers s)) s.

Definition set_chan (ch : nat) (x : Chan) (s : State) : State :=
  set_chans (<[ch := x]> (chans s)) s.

(** [for range jobQueue]: the channel is read once; each round receives a
    buffered value, or leaves the loop when the channel is closed and
    empty, or blocks.  Leaving the loop returns from [worker], which runs
    the deferred [wg.Done()]. *)
Definition worker_step (w : nat) (env : WorkerEnv) (s : State) : option State :=
  match workers s !! w with
  | Some (mkWorker c WStart) =>
      match jobQueue s with
      | Some ch => Some (set_worker w (mkWorker c (WRecv ch)) s)
      | None => Some (set_worker w (mkWorker c WRecvNil) s)
      end
  | Some (mkWorker c (WRecv ch)) =>
      match chans s !! ch with
      | Some (mkChan cap len closed) =>
          if (0 <? len)%nat
          then Some (set_worker w (mkWorker c (WBody ch))
                       (set_chan ch (mkChan cap (len - 1) closed) s))
          else if closed
               then Some (Done (set_worker w (mkWorker c WExited) s))
               else None
      | None => None
      end
  | Some (mkWorker c (WBody ch)) =>
      match worker_iteration env (TargetURL (config (store s)))
                             (reqCounter s) with
      | Some (Next, counter, _) =>
          Some (set_worker w (mkWorker c (WRecv ch)) (set_counter counter s))
      | Some (Return, counter, _) =>
          Some (Done (set_worker w (mkWorker c WExited)
                        (set_counter counter s)))
      | None => None
      end
  | _ => None
  end.

Definition set_producer (p : nat) (x : ProducerPC) (s : State) : State :=
  set_producers (<[p := x]> (producers s)) s.

(** [for { jobQueue <- struct{}{} }]: each round reads [jobQueue] and
    sends on that channel; sending on a closed channel panics. *)
Definition producer_step (p : nat) (s : State) : option State :=
  match producers s !! p with
  | Some PEval =>
      match jobQueue s with
      | Some ch => Some (set_producer p (PSend ch) s)
      | None => Some (set_producer p PSendNil s)
      end
  | Some (PSend ch) =>
      match chans s !! ch with
      | Some (mkChan cap len closed) =>
          if closed then Some (set_panicked s)
          else if (len <? cap)%nat
               then Some (set_producer p PEval
                            (set_chan ch (mkChan cap (len + 1) closed) s))
               else None
      | None => None
      end
  | _ => None
  end.

(** A send meets a waiting receiver on an open, empty channel (the only way
    a send on an unbuffered channel completes). *)
Definition handoff_step (p w : nat) (s : State) : option State :=
  match producers s !! p, workers s !! w with
  | Some (PSend ch), Some (mkWorker c (WRecv ch')) =>
      if Nat.eqb ch ch' then
        match chans s !! ch with
        | Some (mkChan cap O false) =>
            Some (set_producer p PEval (set_worker w (mkWorker c (WBody ch)) s))
        | _ => None
        end
      else None
  | _, _ => None
  end.

Definition stats_step (now_since now_reset : Time) (s : State) : option State :=
  match stats s with
  | None => Some (set_stats (Some now_reset) s)
  | Some startTime =>
      let '(startTime', counter, _) :=
        LogStats_tick now_since now_reset startTime (reqCounter s) in
      Some (set_stats (Some startTime') (set_counter counter s))
  end.

Definition step (l : Label) (s : State) : option State :=
  if panicked s then None
  else
    match l with
    | LLoad f => load_step f s
    | LCtl => RestartWorkers_step s
    | LWorker w env => worker_step w env s
    | LProducer p => producer_step p s
    | LHandoff p w => handoff_step p w s
    | LStats a b => stats_step a b s
    end.

Fixpoint run (ls : list Label) (s : State) : option State :=
  match ls with
  | [] => Some s
  | l :: ls' =>
      match step l s with
      | Some s' => run ls' s'
      | None => None
      end
  end.

Definition reachable (s : State) : Prop := exists ls, run ls initial = Some s.

(** The workers that have not returned. *)
Definition live (w : Worker) : bool :=
  match w_pc w with WExited => false | _ => true end.

Definition live_workers (s : State) : list Worker := List.filter live (workers s).

(** The workers started with client [c]. *)
Definition bound_to (c : nat) (w : Worker) : bool := Nat.eqb (w_client w) c.

Definition generation (c : nat) (s : State) : list Worker :=
  List.filter (bound_to c) (workers s).

Definition is_load (l : Label) : bool :=
  match l with LLoad _ => true | _ => false end.

(** [jobQueue] refers to a channel whose closed flag is [b]. *)
Definition queue_closed (b : bool) (s : State) : Prop :=
  exists ch c,
    jobQueue s = Some ch /\ chans s !! ch = Some c /\ ch_closed c = b.

(** Every worker started with the current client is still running. *)
Definition generation_running (s : State) : Prop :=
  Forall (fun w => bound_to (client s) w = true -> live w = true) (workers s).

(** A worker that has not returned was started with the current client
    and, once past the range clause, receives from the current queue. *)
Definition worker_ok (s : State) (w : Worker) : Prop :=
  live w = true ->
  w_client w = client s /\
  exists ch, jobQueue s = Some ch /\
             (w_pc w = WStart \/ w_pc w = WRecv ch \/ w_pc w = WBody ch).

(** What holds of the pool at each point of the controlling thread. *)
Definition phase_ok (s : State) : Prop :=
  match ctl s with
  | CMain => workerWg s = 0 /\ workersActive s = false
  | RCheck =>
      if workersActive s
      then queue_closed false s /\ generation_running s
      else workerWg s = 0
  | RClose => queue_closed false s /\ generation_running s
  | RWait => queue_closed true s
  | RNewClient => workerWg s = 0
  | RResetWg | RSetActive =>
      workerWg s = 0 /\ generation (client s) s = [] /\
      (client s < clients s)%nat
  | RMake =>
      workerWg s = 0 /\ generation (client s) s = [] /\
      (client s < clients s)%nat /\ workersActive s = true
  | RSpawn i =>
      queue_closed false s /\ generation_running s /\
      workersActive s = true /\ (client s < clients s)%nat /\
      0 <= i /\ length (generation (client s) s) = Z.to_nat i /\
      (i <= Concurrency (config (store s)) \/ i = 0)
  | RGoProducer | CMonitor =>
      queue_closed false s /\ generation_running s /\
      workersActive s = true /\
      length (generation (client s) s)
      = Z.to_nat (Concurrency (config (store s)))
  end.

(** What holds in every state the program reaches without panicking. *)
Definition Inv (s : State) : Prop :=
  panicked s = false ->
  workerWg s = Z.of_nat (length (live_workers s)) /\
  Forall (worker_ok s) (workers s) /\
  Forall (fun w => (w_client w < clients s)%nat) (workers s) /\
  phase_ok s.


(** The thread is not inside [RestartWorkers], or is about to start the
    producer: the generation is complete. *)
Definition generation_complete (pc : CtlPC) : bool :=
  match pc with RGoProducer | CMonitor => true | _ => false end.


(** A restart entered with a concurrency of at most zero, anywhere between
    its call and its return. *)
Definition idle_restart (s0 s : State) : Prop :=
  store s = store s0 /\ length (workers s) = length (workers s0) /\
  match ctl s with
  | RCheck | RClose | RWait | RNewClient | RResetWg | RSetActive => True
  | RMake => workersActive s = true
  | RSpawn i => i = 0 /\ workersActive s = true
  | RGoProducer | CMonitor => workersActive s = true
  | CMain => False
  end.

(** A run that resizes the pool from one worker to four; the producer has
    filled the queue and waits to send when the queue is closed. *)
Definition resize_schedule : list Label :=
  LLoad (mkObs (Some 1) (Opened (Some (mkConfig "http://a" 1))))
    :: repeat LCtl 8
    ++ [LProducer 0; LProducer 0; LProducer 0;
        LLoad (mkObs (Some 2) (Opened (Some (mkConfig "http://a" 4))));
        LCtl; LCtl; LProducer 0].

(** A run in which the producer of the first generation is between two
    sends while the pool is restarted with two workers. *)
Definition overlap_schedule : list Label :=
  LLoad (mkObs (Some 1) (Opened (Some (mkConfig "http://a" 1))))
    :: repeat LCtl 8
    ++ [LWorker 0 (mkEnv (fun _ => true) (fun _ => DoOk 200) (fun _ => 0));
        LLoad (mkObs (Some 2) (Opened (Some (mkConfig "http://a" 2))));
        LCtl; LCtl;
        LWorker 0 (mkEnv (fun _ => true) (fun _ => DoOk 200) (fun _ => 0))]
    ++ repeat LCtl 9.

End RateLimited.

(** ** The retry ceiling, as the specification words it

    A worker body, taken as the events of one logical request, observes the
    retry ceiling when a request whose attempts all fail is attempted
    exactly three times. *)
Definition observes_retry_ceiling
    (body : WorkerEnv -> string -> Z -> list WEvent) : Prop :=
  forall env url counter,
    request_ok env url = true ->
    (forall k, do_result env k = DoErr) ->
    attempts (body env url counter) = 3%nat.

Definition simple_body (env : WorkerEnv) (url : string) (counter : Z)
  : list WEvent := snd (Simple.worker_iteration env url counter).

Definition rate_limited_body (env : WorkerEnv) (url : string) (counter : Z)
  : list WEvent :=
  match RateLimited.worker_iteration env url counter with
  | Some r => snd r
  | None => []
  end.

(** ** Measures of a worker trace *)

Definition is_Close (e : WEvent) : bool :=
  match e with WBodyClose => true | _ => false end.

Definition sleep_of (e : WEvent) : Duration :=
  match e with WSleep d => d | _ => 0 end.

(** The time a worker spends in [time.Sleep] during a trace. *)
Definition total_sleep (evs : list WEvent) : Duration :=
  sumZ (List.map sleep_of evs).

Definition is_ok (r : DoResult) : bool :=
  match r with DoOk _ => true | DoErr => false end.

(** The rate-limited worker gets a response: the URL is accepted and one
    of the three calls of [client.Do] it may make returns without error. *)
Definition gets_response (env : WorkerEnv) (url : string) : bool :=
  request_ok env url
  && (is_ok (do_result env 0%nat) || is_ok (do_result env 1%nat)
      || is_ok (do_result env 2%nat)).

(** The simple worker gets a response: the URL is accepted and its one
    call of [client.Do] returns without error. *)
Definition simple_gets_response (env : WorkerEnv) (url : string) : bool :=
  request_ok env url && is_ok (do_result env 0%nat).

(** ** [LogStats] over several ticks *)

(** One round of [for range ticker.C]: the number of increments workers
    made since the last tick, and the two clock readings of the round. *)
Record Tick := mkTick {
  tick_done : Z;
  tick_since : Time;
  tick_reset : Time
}.

(** The loop of [LogStats] over successive ticks, the workers' increments
    applied before each: [startTime] and [reqCounter] at the end and all
    lines logged. *)
Fixpoint LogStats_ticks (ticks : list Tick) (startTime : Time) (reqCounter : Z)
  : Time * Z * list LogLine :=
  match ticks with
  | [] => (startTime, reqCounter, [])
  | t :: ticks' =>
      let counter :=
        fst (run_counter (repeat OpAdd (Z.to_nat (tick_done t))) reqCounter) in
      let '(startTime', counter', lines) :=
        LogStats_tick (tick_since t) (tick_reset t) startTime counter in
      let '(startTime'', counter'', lines') :=
        LogStats_ticks ticks' startTime' counter' in
      (startTime'', counter'', lines ++ lines')
  end.

Definition quiet (t : Tick) : Prop := 0 <= tick_done t < milestone.

Definition count_line (t : Tick) : LogLine :=
  LogRequestsInLastSecond (tick_done t).

(** ** Further invariants of the two systems *)

Definition counter_in_range (c : Z) : Prop := 0 <= c < uint64_modulus.

(** Simple variant: the counter is a [uint64]; every worker was started
    with the current client; the pool has as many workers as the spawn
    loop has counted, and as many as the configuration asks for once
    [RestartWorkers] has returned. *)
Definition simple_pool_ok (s : Simple.State) : Prop :=
  counter_in_range (Simple.reqCounter s) /\
  Forall (fun w => Simple.w_client w = Simple.client s) (Simple.workers s) /\
  match Simple.ctl s with
  | Simple.RSpawn i =>
      0 <= i /\ length (Simple.workers s) = Z.to_nat i /\
      (i <= Concurrency (config (Simple.store s)) \/ i = 0)
  | Simple.CMonitor =>
      length (Simple.workers s)
      = Z.to_nat (Concurrency (config (Simple.store s)))
  | _ => True
  end.


(** Rate-limited variant: one producer has been started per client
    allocated, the one of the restart under way excepted. *)
Definition producers_counted (s : RateLimited.State) : Prop :=
  match RateLimited.ctl s with
  | RateLimited.RResetWg | RateLimited.RSetActive | RateLimited.RMake
  | RateLimited.RSpawn _ | RateLimited.RGoProducer =>
      S (length (RateLimited.producers s)) = RateLimited.clients s
  | _ => length (RateLimited.producers s) = RateLimited.clients s
  end.

(** No channel holds more values than its capacity. *)
Definition queues_bounded (s : RateLimited.State) : Prop :=
  Forall (fun c => (RateLimited.ch_len c <= RateLimited.ch_cap c)%nat)
         (RateLimited.chans s).

(** From [make] to the next call of [RestartWorkers], the capacity of the
    job queue is the configured concurrency. *)
Definition queue_sized (s : RateLimited.State) : Prop :=
  RateLimited.panicked s = false ->
  match RateLimited.ctl s with
  | RateLimited.RSpawn _ | RateLimited.RGoProducer | RateLimited.CMonitor =>
      exists ch c,
        RateLimited.jobQueue s = Some ch /\
        RateLimited.chans s !! ch = Some c /\
        RateLimited.ch_cap c
        = Z.to_nat (Concurrency (config (RateLimited.store s)))
  | _ => True
  end.


(** A transport that answers every request, for schedules that need one. *)
Definition answering : WorkerEnv :=
  mkEnv (fun _ => true) (fun _ => DoOk 200) (fun _ => 0).

(** * Properties *)

(** ** Counting in lists updated in place *)

Section Lists.
Context {A : Type} (p : A -> bool).

Lemma filter_insert_length (ws : list A) (i : nat) (x y : A) :
  ws !! i = Some x ->
  (length (List.filter p (<[i := y]> ws)) + (if p x then 1 else 0)
   = length (List.filter p ws) + (if p y then 1 else 0))%nat.
Proof.
  intros H.
  assert (ws = take i ws ++ x :: drop (S i) ws) as E
    by (symmetry; now apply take_drop_middle).
  rewrite insert_take_drop by (eapply lookup_lt_Some; eassumption).
  remember (take i ws) as l1. remember (drop (S i) ws) as l2.
  rewrite E, !List.filter_app, !length_app. cbn [List.filter].
  destruct (p x), (p y); cbn [length]; lia.
Qed.

Lemma filter_insert_same (ws : list A) (i : nat) (x y : A) :
  ws !! i = Some x -> p y = p x ->
  length (List.filter p (<[i := y]> ws)) = length (List.filter p ws).
Proof.
  intros H E. pose proof (filter_insert_length ws i x y H) as L.
  rewrite E in L. destruct (p x); lia.
Qed.

Lemma filter_length_pos (ws : list A) (i : nat) (x : A) :
  ws !! i = Some x -> p x = true -> (0 < length (List.filter p ws))%nat.
Proof.
  intros H Hp.
  rewrite <- (take_drop_middle ws i x H), List.filter_app, length_app.
  cbn [List.filter]. rewrite Hp. cbn [length]. lia.
Qed.

Lemma filter_nil_Forall (ws : list A) :
  length (List.filter p ws) = 0%nat -> Forall (fun w => p w = false) ws.
Proof.
  induction ws as [|a ws IH]; cbn; [constructor|].
  destruct (p a) eqn:E; cbn; [lia|]. intros H. constructor; auto.
Qed.

Lemma filter_snoc_length (ws : list A) (x : A) :
  length (List.filter p (ws ++ [x]))
  = (length (List.filter p ws) + (if p x then 1 else 0))%nat.
Proof.
  rewrite List.filter_app, length_app. cbn. destruct (p x); reflexivity.
Qed.

End Lists.

(** ** ConfigStore *)

Lemma LoadConfig_stat_error f st :
  obs_stat f = None -> LoadConfig f st = (false, st, [Log LogOpenFailed]).
Proof. intros H. unfold LoadConfig. now rewrite H. Qed.

Lemma LoadConfig_unchanged_marker f st :
  marker_unchanged f st -> LoadConfig f st = (false, st, []).
Proof.
  unfold marker_unchanged, LoadConfig. intros ->. now rewrite Z.eqb_refl.
Qed.

Lemma LoadConfig_open_error f st :
  obs_open f = OpenError ->
  changed (LoadConfig f st) = false /\ store_after (LoadConfig f st) = st.
Proof.
  intros H. unfold LoadConfig. rewrite H.
  destruct (obs_stat f) as [t|]; [destruct (t =? lastModTime st)|]; auto.
Qed.

Lemma LoadConfig_parse_error f st t :
  obs_stat f = Some t -> t <> lastModTime st -> parse_fails f ->
  LoadConfig f st = (false, st, [Log LogParseFailed; FileClose]).
Proof.
  unfold parse_fails, LoadConfig. intros -> Hne ->.
  apply Z.eqb_neq in Hne. now rewrite Hne.
Qed.

Lemma LoadConfig_success f st t c :
  obs_stat f = Some t -> t <> lastModTime st -> obs_open f = Opened (Some c) ->
  LoadConfig f st =
    (true, mkStore c t,
     [ConfigLock; StoreConfig c; ConfigUnlock; StoreLastMod t;
      Log (LogConfigUpdated c); FileClose]).
Proof.
  unfold LoadConfig. intros -> Hne ->.
  apply Z.eqb_neq in Hne. now rewrite Hne.
Qed.

Lemma LoadConfig_true_inv f st :
  changed (LoadConfig f st) = true ->
  exists t c, obs_stat f = Some t /\ t <> lastModTime st /\
              obs_open f = Opened (Some c).
Proof.
  unfold LoadConfig, changed.
  destruct (obs_stat f) as [t|]; [|discriminate].
  destruct (t =? lastModTime st) eqn:E; [discriminate|].
  apply Z.eqb_neq in E.
  destruct (obs_open f) as [|[c|]]; try discriminate.
  intros _. now exists t, c.
Qed.

Lemma LoadConfig_many_unchanged fs st :
  Forall (fun f => marker_unchanged f st) fs ->
  LoadConfig_many fs st = (repeat false (length fs), st).
Proof.
  induction 1 as [|f fs Hf _ IH]; [reflexivity|].
  cbn [LoadConfig_many length repeat].
  rewrite (LoadConfig_unchanged_marker _ _ Hf).
  unfold store_after, changed. cbn [fst snd]. now rewrite IH.
Qed.

(** C3.  A reload whose source is unreadable, or whose marker changed while
    the content does not parse, returns false and leaves both the stored
    configuration and the modification marker as they were. *)
Theorem LoadConfig_failure_keeps_state (f : FileObs) (st : ConfigStore) :
  unreadable f \/ (marker_changed f st /\ parse_fails f) ->
  changed (LoadConfig f st) = false /\
  store_after (LoadConfig f st) = st /\
  config (store_after (LoadConfig f st)) = config st /\
  lastModTime (store_after (LoadConfig f st)) = lastModTime st.
Proof.
  intros H.
  assert (changed (LoadConfig f st) = false /\ store_after (LoadConfig f st) = st)
    as [Hc Hs].
  { destruct H as [[Hstat|Hopen]|[(t & Hstat & Hne) Hp]].
    - now rewrite (LoadConfig_stat_error _ _ Hstat).
    - now apply LoadConfig_open_error.
    - now rewrite (LoadConfig_parse_error _ _ _ Hstat Hne Hp). }
  rewrite Hs. auto.
Qed.

Lemma LoadConfig_failure_keeps_state_witness :
  let good := mkStore (mkConfig "http://a" 2) 10 in
  let touched_garbage := mkObs (Some 11) (Opened None) in
  changed (LoadConfig touched_garbage good) = false /\
  config (store_after (LoadConfig touched_garbage good)) = mkConfig "http://a" 2.
Proof.
  intros good touched_garbage.
  destruct (LoadConfig_failure_keeps_state touched_garbage good)
    as (Hc & _ & Hcfg & _).
  - right. split; [exists 11; split; [reflexivity|discriminate]|reflexivity].
  - split; [exact Hc|exact Hcfg].
Defined.

(** C4.  A reload returns true exactly when the marker of the source
    differs from the recorded one and the content parses; it then replaces
    the whole configuration between [Lock] and [Unlock] and records the
    new marker.  Reloads with an unchanged marker, however many, all
    return false and leave configuration and marker untouched. *)
Theorem LoadConfig_changed_iff (f : FileObs) (st : ConfigStore) :
  (changed (LoadConfig f st) = true <-> marker_changed f st /\ parses f) /\
  (forall t c,
      obs_stat f = Some t -> t <> lastModTime st ->
      obs_open f = Opened (Some c) ->
      LoadConfig f st =
        (true, mkStore c t,
         [ConfigLock; StoreConfig c; ConfigUnlock; StoreLastMod t;
          Log (LogConfigUpdated c); FileClose])) /\
  (forall fs,
      Forall (fun f' => marker_unchanged f' st) fs ->
      LoadConfig_many fs st = (repeat false (length fs), st)).
Proof.
  split; [|split].
  - split.
    + intros H. destruct (LoadConfig_true_inv _ _ H) as (t & c & Hs & Hne & Ho).
      split; [now exists t|now exists c].
    + intros [(t & Hs & Hne) (c & Ho)].
      now rewrite (LoadConfig_success _ _ _ _ Hs Hne Ho).
  - intros t c. apply LoadConfig_success.
  - intros fs. apply LoadConfig_many_unchanged.
Qed.

Lemma LoadConfig_changed_iff_witness :
  let st := mkStore (mkConfig "http://a" 2) 10 in
  let same := mkObs (Some 10) (Opened (Some (mkConfig "http://b" 8))) in
  let newer := mkObs (Some 11) (Opened (Some (mkConfig "http://b" 8))) in
  LoadConfig_many [same; same; same] st = ([false; false; false], st) /\
  store_after (LoadConfig newer st) = mkStore (mkConfig "http://b" 8) 11.
Proof.
  intros st same newer. split.
  - destruct (LoadConfig_changed_iff same st) as (_ & _ & H).
    apply (H [same; same; same]). repeat constructor.
  - destruct (LoadConfig_changed_iff newer st) as (_ & H & _).
    rewrite (H 11 (mkConfig "http://b" 8)); [reflexivity|reflexivity| |reflexivity].
    discriminate.
Defined.

(** ** RequestCounter *)

Lemma AddUint64_small v :
  0 <= v -> v + 1 < uint64_modulus -> AddUint64 v 1 = v + 1.
Proof. intros. unfold AddUint64. apply Z.mod_small. lia. Qed.

Lemma run_counter_adds (n : nat) ops v :
  0 <= v -> v + Z.of_nat n < uint64_modulus ->
  run_counter (repeat OpAdd n ++ ops) v = run_counter ops (v + Z.of_nat n).
Proof.
  revert v. induction n as [|n IH]; intros v H0 Hlt.
  - cbn. now rewrite Z.add_0_r.
  - cbn [repeat app run_counter].
    rewrite AddUint64_small by lia.
    rewrite IH by lia. f_equal. lia.
Qed.

Lemma count_adds_nonneg ops : 0 <= count_adds ops.
Proof. induction ops as [|[|] ops IH]; cbn [count_adds]; lia. Qed.

Lemma run_counter_conserves ops : forall v,
  0 <= v -> v + count_adds ops < uint64_modulus ->
  sumZ (snd (run_counter ops v)) + fst (run_counter ops v) = v + count_adds ops.
Proof.
  induction ops as [|[|] ops IH]; intros v H0 Hlt; cbn [run_counter count_adds] in *.
  - cbn. lia.
  - pose proof (count_adds_nonneg ops).
    rewrite AddUint64_small by lia. rewrite IH by lia. lia.
  - unfold SwapUint64.
    pose proof (count_adds_nonneg ops).
    specialize (IH 0 ltac:(lia) ltac:(lia)).
    destruct (run_counter ops 0) as [vf outs].
    cbn [fst snd] in *. unfold sumZ in *. cbn [fold_right]. lia.
Qed.

(** C7.  Read-and-clear is one step of the history.  After [N] increments
    (with [N] a value of the counter's type) a reset returns exactly [N]
    and leaves zero; and in every history of increments and resets that
    starts from zero, the counts reported by the resets plus the value left
    in the counter add up to the number of increments: none is lost and
    none is counted twice, wherever the resets fall. *)
Theorem counter_reset_exact :
  (forall N : nat,
      Z.of_nat N < uint64_modulus ->
      run_counter (repeat OpAdd N ++ [OpSwap]) 0 = (0, [Z.of_nat N])) /\
  (forall ops,
      count_adds ops < uint64_modulus ->
      sumZ (snd (run_counter ops 0)) + fst (run_counter ops 0) = count_adds ops).
Proof.
  split.
  - intros N HN. rewrite run_counter_adds by lia. reflexivity.
  - intros ops H. rewrite run_counter_conserves by lia. lia.
Qed.

Lemma counter_reset_exact_witness :
  run_counter (repeat OpAdd 5 ++ [OpSwap]) 0 = (0, [5]) /\
  sumZ (snd (run_counter [OpAdd; OpAdd; OpSwap; OpAdd; OpSwap; OpAdd] 0))
  + fst (run_counter [OpAdd; OpAdd; OpSwap; OpAdd; OpSwap; OpAdd] 0) = 4.
Proof.
  destruct counter_reset_exact as [H1 H2]. split.
  - apply (H1 5%nat). reflexivity.
  - apply (H2 [OpAdd; OpAdd; OpSwap; OpAdd; OpSwap; OpAdd]). reflexivity.
Defined.

(** ** StatsReporter *)

(** C8.  The ticker period is one second.  Each tick swaps the counter
    with zero and logs the count read; when the count is at least 100000
    it also logs the time elapsed since [startTime] and sets [startTime]
    to the current time; otherwise [startTime] is kept. *)
Theorem LogStats_tick_spec (now_since now_reset startTime count : Z) :
  LogStats_period = 1000000000 /\ milestone = 100000 /\
  snd (fst (LogStats_tick now_since now_reset startTime count)) = 0 /\
  (100000 <= count ->
     LogStats_tick now_since now_reset startTime count =
       (now_reset, 0,
        [LogRequestsInLastSecond count; LogTimeTaken (now_since - startTime)])) /\
  (count < 100000 ->
     LogStats_tick now_since now_reset startTime count =
       (startTime, 0, [LogRequestsInLastSecond count])).
Proof.
  unfold LogStats_tick, SwapUint64, milestone.
  repeat split.
  - destruct (100000 <=? count); reflexivity.
  - intros H. apply Z.leb_le in H. now rewrite H.
  - intros H. apply Z.leb_gt in H. now rewrite H.
Qed.

Lemma LogStats_tick_spec_witness :
  LogStats_tick 7000 7001 1000 100000 =
    (7001, 0, [LogRequestsInLastSecond 100000; LogTimeTaken 6000]) /\
  LogStats_tick 7000 7001 1000 99999 =
    (1000, 0, [LogRequestsInLastSecond 99999]).
Proof.
  split.
  - destruct (LogStats_tick_spec 7000 7001 1000 100000) as (_ & _ & _ & H & _).
    apply H. lia.
  - destruct (LogStats_tick_spec 7000 7001 1000 99999) as (_ & _ & _ & _ & H).
    apply H. lia.
Defined.

(** ** Successive polls of the configuration *)

(** X1.  Once a load has succeeded, every later poll that finds the same
    modification time returns false and changes nothing, whatever the file
    then contains: the file is polled for its time, not for its content. *)
Theorem LoadConfig_ignores_same_marker (f g : FileObs) (st : ConfigStore) :
  changed (LoadConfig f st) = true ->
  obs_stat g = obs_stat f ->
  LoadConfig g (store_after (LoadConfig f st))
  = (false, store_after (LoadConfig f st), []).
Proof.
  intros H Hg. destruct (LoadConfig_true_inv _ _ H) as (t & c & Hs & Hne & Ho).
  rewrite (LoadConfig_success _ _ _ _ Hs Hne Ho). unfold store_after. cbn [fst snd].
  apply LoadConfig_unchanged_marker. unfold marker_unchanged. cbn. congruence.
Qed.

Lemma LoadConfig_ignores_same_marker_witness :
  let st := mkStore (mkConfig "http://a" 2) 10 in
  let f := mkObs (Some 11) (Opened (Some (mkConfig "http://b" 8))) in
  let g := mkObs (Some 11) (Opened (Some (mkConfig "http://c" 16))) in
  LoadConfig g (store_after (LoadConfig f st))
  = (false, mkStore (mkConfig "http://b" 8) 11, []).
Proof.
  intros st f g.
  exact (LoadConfig_ignores_same_marker f g st eq_refl eq_refl).
Defined.

(** X2.  A load that fails to parse does not record the modification time
    it saw: a later poll that finds the same time and a content that
    parses installs that content and returns true. *)
Theorem LoadConfig_retries_after_parse_failure (f g : FileObs)
    (st : ConfigStore) (t : Time) (c : Config) :
  obs_stat f = Some t -> t <> lastModTime st -> parse_fails f ->
  obs_stat g = Some t -> obs_open g = Opened (Some c) ->
  changed (LoadConfig g (store_after (LoadConfig f st))) = true /\
  store_after (LoadConfig g (store_after (LoadConfig f st))) = mkStore c t.
Proof.
  intros Hs Hne Hp Hg Ho.
  assert (store_after (LoadConfig f st) = st) as ->
    by now rewrite (LoadConfig_parse_error _ _ _ Hs Hne Hp).
  rewrite (LoadConfig_success _ _ _ _ Hg Hne Ho). auto.
Qed.

Lemma LoadConfig_retries_after_parse_failure_witness :
  let st := mkStore (mkConfig "http://a" 2) 10 in
  let half_written := mkObs (Some 11) (Opened None) in
  let complete := mkObs (Some 11) (Opened (Some (mkConfig "http://b" 8))) in
  changed (LoadConfig complete (store_after (LoadConfig half_written st))) = true /\
  store_after (LoadConfig complete (store_after (LoadConfig half_written st)))
  = mkStore (mkConfig "http://b" 8) 11.
Proof.
  intros st half_written complete.
  apply (LoadConfig_retries_after_parse_failure half_written complete st 11);
    [reflexivity|discriminate|reflexivity|reflexivity|reflexivity].
Defined.

Lemma LoadConfig_false_unchanged f st :
  changed (LoadConfig f st) = false -> store_after (LoadConfig f st) = st.
Proof.
  unfold LoadConfig, changed, store_after.
  destruct (obs_stat f) as [t|]; [|reflexivity].
  destruct (t =? lastModTime st); [reflexivity|].
  destruct (obs_open f) as [|[c|]]; [reflexivity|discriminate|reflexivity].
Qed.

Lemma LoadConfig_many_cons f fs st :
  LoadConfig_many (f :: fs) st
  = (changed (LoadConfig f st)
       :: fst (LoadConfig_many fs (store_after (LoadConfig f st))),
     snd (LoadConfig_many fs (store_after (LoadConfig f st)))).
Proof.
  cbn [LoadConfig_many].
  now destruct (LoadConfig_many fs (store_after (LoadConfig f st))).
Qed.

(** X3.  After any number of polls the stored configuration and marker
    are those of the last poll that returned true (its decoded content
    and its modification time), all polls after it having returned false;
    if no poll returned true they are as at the start. *)
Theorem LoadConfig_many_last_success (fs : list FileObs) (st : ConfigStore) :
  (fst (LoadConfig_many fs st) = repeat false (length fs) /\
   snd (LoadConfig_many fs st) = st) \/
  (exists fs1 f fs2 bs1 t c,
      fs = fs1 ++ f :: fs2 /\
      obs_stat f = Some t /\ obs_open f = Opened (Some c) /\
      fst (LoadConfig_many fs st) = bs1 ++ true :: repeat false (length fs2) /\
      length bs1 = length fs1 /\
      snd (LoadConfig_many fs st) = mkStore c t).
Proof.
  revert st. induction fs as [|f fs IH]; intros st.
  - left. split; reflexivity.
  - rewrite LoadConfig_many_cons. cbn [fst snd length repeat].
    destruct (IH (store_after (LoadConfig f st)))
      as [[Hb Hst]|(fs1 & f' & fs2 & bs1 & t & c & -> & Hs & Ho & Hb & Hl & Hst)].
    + destruct (changed (LoadConfig f st)) eqn:E.
      * right. destruct (LoadConfig_true_inv _ _ E) as (t & c & Hs & Hne & Ho).
        exists [], f, fs, [], t, c. rewrite Hb, Hst.
        rewrite (LoadConfig_success _ _ _ _ Hs Hne Ho). unfold store_after.
        cbn. auto 10.
      * left. rewrite Hb, Hst. split; [reflexivity|].
        now apply LoadConfig_false_unchanged.
    + right. exists (f :: fs1), f', fs2, (changed (LoadConfig f st) :: bs1), t, c.
      rewrite Hb, Hst. cbn. auto 10.
Qed.

(** ** The reporter over several ticks *)

Lemma run_counter_adds_only (n : Z) :
  0 <= n < uint64_modulus ->
  fst (run_counter (repeat OpAdd (Z.to_nat n)) 0) = n.
Proof.
  intros H. rewrite <- (app_nil_r (repeat OpAdd (Z.to_nat n))).
  rewrite run_counter_adds by lia. cbn [run_counter fst]. lia.
Qed.

Lemma milestone_below_modulus : milestone < uint64_modulus.
Proof. reflexivity. Qed.

Lemma LogStats_ticks_quiet_step t ticks start :
  quiet t ->
  LogStats_ticks (t :: ticks) start 0
  = (fst (fst (LogStats_ticks ticks start 0)),
     snd (fst (LogStats_ticks ticks start 0)),
     count_line t :: snd (LogStats_ticks ticks start 0)).
Proof.
  unfold quiet. intros Hq. cbn [LogStats_ticks].
  pose proof milestone_below_modulus.
  rewrite run_counter_adds_only by lia.
  unfold LogStats_tick, SwapUint64.
  destruct (Z.leb_spec milestone (tick_done t)); [lia|].
  now destruct (LogStats_ticks ticks start 0) as [[a b] c].
Qed.

(** X4.  The threshold is applied to the count of each second, the counter
    being cleared at every tick: as long as every second stays below
    100000 requests, no elapsed time is ever logged and the start time is
    never moved, however many requests the seconds add up to. *)
Theorem LogStats_never_reports_slow_traffic (ticks : list Tick) (start : Time) :
  Forall quiet ticks ->
  LogStats_ticks ticks start 0 = (start, 0, List.map count_line ticks).
Proof.
  induction 1 as [|t ticks Ht _ IH]; [reflexivity|].
  rewrite (LogStats_ticks_quiet_step _ _ _ Ht), IH. reflexivity.
Qed.

Lemma LogStats_never_reports_slow_traffic_witness :
  LogStats_ticks [mkTick 60000 1000 1001; mkTick 60000 2000 2001;
                  mkTick 60000 3000 3001] 0 0
  = (0, 0, [LogRequestsInLastSecond 60000; LogRequestsInLastSecond 60000;
            LogRequestsInLastSecond 60000]).
Proof.
  apply (LogStats_never_reports_slow_traffic
           [mkTick 60000 1000 1001; mkTick 60000 2000 2001;
            mkTick 60000 3000 3001] 0).
  repeat constructor; cbn; lia.
Defined.

(** X5.  The first second that reaches 100000 requests after any number
    of slower seconds logs the time elapsed since the start time, the
    slower seconds included, and moves the start time to the clock read
    after logging. *)
Theorem LogStats_measures_across_quiet_ticks (qs : list Tick) (m : Tick)
    (start : Time) :
  Forall quiet qs ->
  milestone <= tick_done m < uint64_modulus ->
  LogStats_ticks (qs ++ [m]) start 0
  = (tick_reset m, 0,
     List.map count_line qs
       ++ [count_line m; LogTimeTaken (tick_since m - start)]).
Proof.
  intros Hq Hm. assert (0 < milestone) as Hpos by reflexivity.
  induction Hq as [|t qs Ht _ IH].
  - cbn [app LogStats_ticks List.map].
    rewrite run_counter_adds_only by lia.
    unfold LogStats_tick, SwapUint64.
    destruct (Z.leb_spec milestone (tick_done m)); [|lia].
    reflexivity.
  - cbn [app List.map]. rewrite (LogStats_ticks_quiet_step _ _ _ Ht), IH.
    reflexivity.
Qed.

Lemma LogStats_measures_across_quiet_ticks_witness :
  LogStats_ticks [mkTick 60000 1000 1001; mkTick 60000 2000 2001;
                  mkTick 120000 3000 3001] 7 0
  = (3001, 0, [LogRequestsInLastSecond 60000; LogRequestsInLastSecond 60000;
               LogRequestsInLastSecond 120000; LogTimeTaken 2993]).
Proof.
  apply (LogStats_measures_across_quiet_ticks
           [mkTick 60000 1000 1001; mkTick 60000 2000 2001]
           (mkTick 120000 3000 3001) 7).
  - repeat constructor; cbn; lia.
  - cbn. unfold milestone, uint64_modulus. lia.
Defined.

(** ** Worker bodies *)

(** Evaluates a worker body up to the answers of its environment. *)
Ltac run_body :=
  cbv -[do_result draw request_ok AddUint64 Intn Millisecond Z.mul].

Lemma Intn_range raw n : 0 < n -> 0 <= Intn raw n < n.
Proof. intros H. unfold Intn. apply Z.mod_pos_bound. exact H. Qed.

(** The retry loop never runs out of fuel and the body always hands control
    to the next iteration. *)
Lemma retry_loop_total env counter :
  exists r, RateLimited.retry_loop RateLimited.retry_fuel env 0 0%nat counter = Some r.
Proof.
  run_body.
  destruct (do_result env 0%nat); [eauto|].
  destruct (do_result env 1%nat); [eauto|].
  destruct (do_result env 2%nat); eauto.
Qed.

Lemma rate_limited_iteration_next env url counter :
  exists c evs, RateLimited.worker_iteration env url counter = Some (Next, c, evs).
Proof.
  unfold RateLimited.worker_iteration.
  destruct (request_ok env url); [|eauto].
  destruct (retry_loop_total env counter) as [[[c k] evs] ->]. eauto.
Qed.

Lemma simple_iteration_next env url counter :
  fst (fst (Simple.worker_iteration env url counter)) = Next.
Proof.
  unfold Simple.worker_iteration.
  destruct (request_ok env url); [destruct (do_result env 0%nat)|]; reflexivity.
Qed.


(** C5, as stated for every worker, fails on the simple variant: its body
    makes a single attempt. *)
Lemma simple_worker_has_no_retry_ceiling : ~ observes_retry_ceiling simple_body.
Proof.
  intros H.
  specialize (H (mkEnv (fun _ => true) (fun _ => DoErr) (fun _ => 0))
                "http://a"%string 0 eq_refl (fun _ => eq_refl)).
  vm_compute in H. discriminate.
Qed.

(** C5 (amended).  When every attempt fails, the rate-limited worker calls
    [client.Do] exactly three times, sleeps [rand.Intn(100)] milliseconds,
    a value in [0, 100), after each of the three failures, then gives the
    request up: the counter is as before and no increment appears among
    the events.  The worker of the simple variant makes one attempt, does
    not sleep and does not increment the counter either. *)
Theorem three_failures_then_abandon (env : WorkerEnv) (url : string) (counter : Z) :
  request_ok env url = true ->
  (forall k, do_result env k = DoErr) ->
  RateLimited.worker_iteration env url counter =
    Some (Next, counter,
          [WRLock; WReadURL url; WRUnlock; WNewRequest url true;
           WDo 0; WLog (LogRequestFailedAttempt 1);
           WSleep (Intn (draw env 0%nat) 100 * Millisecond);
           WDo 1; WLog (LogRequestFailedAttempt 2);
           WSleep (Intn (draw env 1%nat) 100 * Millisecond);
           WDo 2; WLog (LogRequestFailedAttempt 3);
           WSleep (Intn (draw env 2%nat) 100 * Millisecond);
           WSleep (Intn (draw env 3%nat) 10 * Millisecond)]) /\
  attempts (rate_limited_body env url counter) = 3%nat /\
  List.filter is_Add (rate_limited_body env url counter) = [] /\
  (forall k, 0 <= Intn (draw env k) 100 < 100) /\
  Simple.worker_iteration env url counter =
    (Next, counter,
     [WRLock; WReadURL url; WRUnlock; WNewRequest url true;
      WDo 0; WLog LogRequestFailed]).
Proof.
  intros Hurl Hfail.
  assert (RateLimited.worker_iteration env url counter =
    Some (Next, counter,
          [WRLock; WReadURL url; WRUnlock; WNewRequest url true;
           WDo 0; WLog (LogRequestFailedAttempt 1);
           WSleep (Intn (draw env 0%nat) 100 * Millisecond);
           WDo 1; WLog (LogRequestFailedAttempt 2);
           WSleep (Intn (draw env 1%nat) 100 * Millisecond);
           WDo 2; WLog (LogRequestFailedAttempt 3);
           WSleep (Intn (draw env 2%nat) 100 * Millisecond);
           WSleep (Intn (draw env 3%nat) 10 * Millisecond)])) as Hrl.
  { run_body. now rewrite Hurl, !Hfail. }
  split; [exact Hrl|].
  unfold rate_limited_body. rewrite Hrl. cbn [snd].
  repeat split.
  - apply Intn_range. lia.
  - apply Intn_range. lia.
  - unfold Simple.worker_iteration. now rewrite Hurl, Hfail.
Qed.

Lemma three_failures_then_abandon_witness :
  let env := mkEnv (fun _ => true) (fun _ => DoErr) (fun k => 1234 + Z.of_nat k) in
  attempts (rate_limited_body env "http://a" 7) = 3%nat /\
  List.filter is_Add (rate_limited_body env "http://a" 7) = [].
Proof.
  intros env.
  destruct (three_failures_then_abandon env "http://a" 7 eq_refl (fun _ => eq_refl))
    as (_ & H1 & H2 & _).
  split; [exact H1|exact H2].
Defined.



(** ** One iteration of a worker, whatever the environment answers *)

(** The five ways an iteration of the rate-limited worker can go. *)
Lemma rate_limited_iteration_cases env url counter :
  (request_ok env url = false /\
   RateLimited.worker_iteration env url counter =
     Some (Next, counter,
           [WRLock; WReadURL url; WRUnlock; WNewRequest url false;
            WLog LogRequestCreationFailed])) \/
  (request_ok env url = true /\ is_ok (do_result env 0%nat) = true /\
   RateLimited.worker_iteration env url counter =
     Some (Next, AddUint64 counter 1,
           [WRLock; WReadURL url; WRUnlock; WNewRequest url true;
            WDo 0; WBodyClose; WAddCounter;
            WSleep (Intn (draw env 0%nat) 10 * Millisecond)])) \/
  (request_ok env url = true /\ is_ok (do_result env 0%nat) = false /\
   is_ok (do_result env 1%nat) = true /\
   RateLimited.worker_iteration env url counter =
     Some (Next, AddUint64 counter 1,
           [WRLock; WReadURL url; WRUnlock; WNewRequest url true;
            WDo 0; WLog (LogRequestFailedAttempt 1);
            WSleep (Intn (draw env 0%nat) 100 * Millisecond);
            WDo 1; WBodyClose; WAddCounter;
            WSleep (Intn (draw env 1%nat) 10 * Millisecond)])) \/
  (request_ok env url = true /\ is_ok (do_result env 0%nat) = false /\
   is_ok (do_result env 1%nat) = false /\ is_ok (do_result env 2%nat) = true /\
   RateLimited.worker_iteration env url counter =
     Some (Next, AddUint64 counter 1,
           [WRLock; WReadURL url; WRUnlock; WNewRequest url true;
            WDo 0; WLog (LogRequestFailedAttempt 1);
            WSleep (Intn (draw env 0%nat) 100 * Millisecond);
            WDo 1; WLog (LogRequestFailedAttempt 2);
            WSleep (Intn (draw env 1%nat) 100 * Millisecond);
            WDo 2; WBodyClose; WAddCounter;
            WSleep (Intn (draw env 2%nat) 10 * Millisecond)])) \/
  (request_ok env url = true /\ is_ok (do_result env 0%nat) = false /\
   is_ok (do_result env 1%nat) = false /\ is_ok (do_result env 2%nat) = false /\
   RateLimited.worker_iteration env url counter =
     Some (Next, counter,
           [WRLock; WReadURL url; WRUnlock; WNewRequest url true;
            WDo 0; WLog (LogRequestFailedAttempt 1);
            WSleep (Intn (draw env 0%nat) 100 * Millisecond);
            WDo 1; WLog (LogRequestFailedAttempt 2);
            WSleep (Intn (draw env 1%nat) 100 * Millisecond);
            WDo 2; WLog (LogRequestFailedAttempt 3);
            WSleep (Intn (draw env 2%nat) 100 * Millisecond);
            WSleep (Intn (draw env 3%nat) 10 * Millisecond)])).
Proof.
  run_body.
  destruct (request_ok env url); [|left; auto].
  destruct (do_result env 0%nat); [right; left; auto|].
  destruct (do_result env 1%nat); [right; right; left; auto|].
  destruct (do_result env 2%nat);
    [right; right; right; left; auto 6|right; right; right; right; auto 6].
Qed.

(** Sums the sleeps of an explicit trace and bounds them by the ranges of
    the random draws. *)
Ltac bound_sleep env :=
  unfold total_sleep, sumZ; cbn [List.map fold_right sleep_of];
  pose proof (Intn_range (draw env 0%nat) 100 ltac:(lia));
  pose proof (Intn_range (draw env 1%nat) 100 ltac:(lia));
  pose proof (Intn_range (draw env 2%nat) 100 ltac:(lia));
  pose proof (Intn_range (draw env 0%nat) 10 ltac:(lia));
  pose proof (Intn_range (draw env 1%nat) 10 ltac:(lia));
  pose proof (Intn_range (draw env 2%nat) 10 ltac:(lia));
  pose proof (Intn_range (draw env 3%nat) 10 ltac:(lia));
  unfold Millisecond; lia.

(** X6.  Whatever the environment answers, one iteration of the
    rate-limited worker ends, calls [client.Do] at most three times and
    sleeps less than 310 milliseconds in all (three retry sleeps below 100
    and the final one below 10).  When the URL is rejected it makes no
    call and does not sleep at all before the next iteration. *)
Theorem rate_limited_iteration_bounded (env : WorkerEnv) (url : string)
    (counter : Z) :
  exists c evs,
    RateLimited.worker_iteration env url counter = Some (Next, c, evs) /\
    (attempts evs <= 3)%nat /\
    0 <= total_sleep evs < 310 * Millisecond /\
    (request_ok env url = false ->
     attempts evs = 0%nat /\ total_sleep evs = 0).
Proof.
  destruct (rate_limited_iteration_cases env url counter)
    as [(Hu & ->)|[(Hu & _ & ->)|[(Hu & _ & _ & ->)|[(Hu & _ & _ & _ & ->)
        |(Hu & _ & _ & _ & ->)]]]];
    eexists; eexists; (split; [reflexivity|]);
    (split; [cbn; lia|]); (split; [bound_sleep env|]);
    intros Hu'; try congruence.
  split; reflexivity.
Qed.

(** X7.  In both variants the counter is incremented exactly when the
    iteration gets a response (from one of the at most three calls in the
    rate-limited worker, from the single call in the simple one), and then
    exactly once; and the body of that response is closed, once.  Without
    a response the counter is left as it was and nothing is closed. *)
Theorem response_counted_and_closed_once (env : WorkerEnv) (url : string)
    (counter : Z) :
  (exists evs,
      RateLimited.worker_iteration env url counter =
        Some (Next,
              (if gets_response env url then AddUint64 counter 1 else counter),
              evs) /\
      length (List.filter is_Close evs)
      = (if gets_response env url then 1 else 0)%nat /\
      length (List.filter is_Add evs)
      = (if gets_response env url then 1 else 0)%nat) /\
  (exists evs,
      Simple.worker_iteration env url counter =
        (Next,
         (if simple_gets_response env url then AddUint64 counter 1
          else counter),
         evs) /\
      length (List.filter is_Close evs)
      = (if simple_gets_response env url then 1 else 0)%nat /\
      length (List.filter is_Add evs)
      = (if simple_gets_response env url then 1 else 0)%nat).
Proof.
  split.
  - unfold gets_response.
    destruct (rate_limited_iteration_cases env url counter)
      as [(Hu & ->)|[(Hu & H0 & ->)|[(Hu & H0 & H1 & ->)
          |[(Hu & H0 & H1 & H2 & ->)|(Hu & H0 & H1 & H2 & ->)]]]];
      rewrite Hu, ?H0, ?H1, ?H2; cbn [andb orb];
      eexists; (split; [reflexivity|]); split; reflexivity.
  - unfold simple_gets_response, Simple.worker_iteration.
    destruct (request_ok env url); [destruct (do_result env 0%nat)|];
      cbn [andb is_ok]; eexists; (split; [reflexivity|]); split; reflexivity.
Qed.

Lemma rate_limited_iteration_bounded_witness :
  let env := mkEnv (fun _ => false) (fun _ => DoOk 200) (fun _ => 5) in
  exists c evs,
    RateLimited.worker_iteration env "://" 0 = Some (Next, c, evs) /\
    attempts evs = 0%nat /\ total_sleep evs = 0.
Proof.
  intros env.
  destruct (rate_limited_iteration_bounded env "://" 0)
    as (c & evs & Hit & _ & _ & Hbad).
  exists c, evs. split; [exact Hit|]. apply Hbad. reflexivity.
Defined.

(** ** The simple variant as a transition system *)

Section SimpleSystem.
Import Simple.

Lemma simple_worker_step w env s s' :
  worker_step w env s = Some s' -> exists c, s' = set_counter c s.
Proof.
  unfold worker_step.
  destruct (workers s !! w) as [[c [|]]|]; try discriminate.
  pose proof (simple_iteration_next env (TargetURL (config (store s)))
                (reqCounter s)) as Hnext.
  destruct (worker_iteration env (TargetURL (config (store s))) (reqCounter s))
    as [[flow c'] evs].
  cbn in Hnext. subst flow. intros [= <-]. eauto.
Qed.

Lemma simple_stats_step a b s s' :
  stats_step a b s = Some s' ->
  exists c t, s' = set_stats t (set_counter c s).
Proof.
  unfold stats_step. destruct (stats s) as [t0|].
  - destruct (LogStats_tick a b t0 (reqCounter s)) as [[t1 c] lines].
    intros [= <-]. eauto.
  - intros [= <-]. exists (reqCounter s), (Some b). now destruct s.
Qed.

(** Splits a step into the moves of the four kinds of thread. *)
Ltac simple_step_cases H :=
  unfold step in H;
  match type of H with
  | (if panicked ?s then _ else _) = _ =>
      destruct (panicked s) eqn:?; [discriminate H|]
  end;
  match type of H with
  | match ?l with _ => _ end = _ => destruct l
  end;
  [ unfold load_step in H
  | unfold RestartWorkers_step in H
  | apply simple_worker_step in H; destruct H as [? ->]
  | apply simple_stats_step in H; destruct H as (? & ? & ->) ].

Lemma simple_run_app ls1 ls2 s :
  run (ls1 ++ ls2) s =
  match run ls1 s with Some s' => run ls2 s' | None => None end.
Proof.
  revert s. induction ls1 as [|l ls1 IH]; intros s; cbn [run app]; [reflexivity|].
  destruct (step l s); [apply IH|reflexivity].
Qed.

Lemma simple_reachable_run ls s s' :
  reachable s -> run ls s = Some s' -> reachable s'.
Proof.
  intros [ls0 H0] H. exists (ls0 ++ ls). now rewrite simple_run_app, H0.
Qed.

(** A property kept by every step is kept by every schedule. *)
Lemma simple_run_invariant (P : State -> Prop) :
  (forall l s s', P s -> step l s = Some s' -> P s') ->
  forall ls s s', P s -> run ls s = Some s' -> P s'.
Proof.
  intros Hstep. induction ls as [|l ls IH]; intros s s' HP Hrun; cbn [run] in Hrun.
  - now injection Hrun as <-.
  - destruct (step l s) as [s1|] eqn:E; [|discriminate]. eauto.
Qed.

Lemma simple_Inv_initial : Inv initial.
Proof. repeat split; cbn; auto. Qed.

Lemma simple_Inv_step l s s' : Inv s -> step l s = Some s' -> Inv s'.
Proof.
  intros (Hp & Hwg & Hloop & Hact & Hctl) H.
  simple_step_cases H.
  - (* LoadConfig *)
    destruct (ctl s) eqn:E; try discriminate; injection H as <-;
      unfold Inv; cbn; rewrite ?E; repeat split; auto.
    destruct (changed _); auto.
  - (* RestartWorkers *)
    destruct (ctl s) eqn:E; try discriminate.
    + injection H as <-. unfold Inv; cbn. repeat split; auto.
      destruct (workersActive s) eqn:A; auto.
    + destruct (Z.eqb_spec (workerWg s) 0) as [W|]; [|discriminate].
      injection H as <-. unfold Inv; cbn. repeat split; auto.
      destruct (workers s); [reflexivity|cbn in Hwg; lia].
    + injection H as <-. unfold Inv; cbn. repeat split; auto.
    + injection H as <-. unfold Inv; cbn. rewrite Hctl. repeat split; auto.
    + injection H as <-. unfold Inv; cbn. repeat split; auto.
    + destruct (i <? Concurrency (config (store s))); injection H as <-;
        unfold Inv; cbn; repeat split; auto.
      * rewrite length_app. cbn. lia.
      * apply Forall_app. split; [assumption|]. now repeat constructor.
      * intros A. congruence.
  - unfold Inv; cbn. repeat split; auto.
  - unfold Inv; cbn. repeat split; auto.
Qed.

Lemma simple_reachable_Inv s : reachable s -> Inv s.
Proof.
  intros [ls H]. exact (simple_run_invariant Inv simple_Inv_step ls _ _ simple_Inv_initial H).
Qed.

(** A blocked restart stays blocked, and nothing changes the pool. *)
Lemma blocked_step l s s' :
  blocked s -> step l s = Some s' ->
  blocked s' /\ workers s' = workers s.
Proof.
  intros (Hwg & Hctl) H. simple_step_cases H.
  - destruct Hctl as [E|[E _]]; rewrite E in H; discriminate.
  - destruct Hctl as [E|[E A]]; rewrite E in H.
    + destruct (Z.eqb_spec (workerWg s) 0); [lia|discriminate].
    + rewrite A in H. injection H as <-. unfold blocked. cbn. auto.
  - unfold blocked. cbn. auto.
  - unfold blocked. cbn. auto.
Qed.

Lemma blocked_run ls : forall s s',
  blocked s -> run ls s = Some s' ->
  blocked s' /\ workers s' = workers s.
Proof.
  induction ls as [|l ls IH]; intros s s' Hb Hrun; cbn [run] in Hrun.
  - injection Hrun as <-. auto.
  - destruct (step l s) as [s1|] eqn:E; [|discriminate].
    destruct (blocked_step _ _ _ Hb E) as [Hb1 Hw1].
    destruct (IH _ _ Hb1 Hrun) as [Hb' Hw']. split; [assumption|congruence].
Qed.

Lemma blocked_at_join s : blocked s -> at_join (ctl s) = true.
Proof. intros (_ & [E|[E _]]); now rewrite E. Qed.

Lemma blocked_Wait_disabled s :
  blocked s -> ctl s = RWait -> step LCtl s = None.
Proof.
  intros (Hwg & _) E. unfold step, RestartWorkers_step. rewrite E.
  destruct (panicked s); [reflexivity|].
  destruct (Z.eqb_spec (workerWg s) 0); [lia|reflexivity].
Qed.



(** C10, as stated, fails: a generation of zero workers is active (the
    flag is set) and does not block the next restart.  Here the initial
    load fails, the first restart runs under the zero configuration, a
    configuration with two workers is then loaded, and the second restart
    goes through [Wait]. *)
Lemma zero_worker_generation_does_not_block : ~ restart_always_blocks.
Proof.
  intros H.
  pose (sched := LLoad (mkObs None OpenError) :: repeat LCtl 5 ++
                 [LLoad (mkObs (Some 1) (Opened (Some (mkConfig "http://a" 2))))]).
  destruct (run sched initial) as [s|] eqn:Hs; [|vm_compute in Hs; discriminate].
  assert (reachable s) as Hr by (now exists sched).
  vm_compute in Hs. injection Hs as <-.
  specialize (H _ Hr eq_refl eq_refl [LCtl; LCtl] _ eq_refl).
  vm_compute in H. discriminate.
Qed.

(** C10 (amended).  The loop of a worker has no exit: its body always
    continues with the next iteration, and every worker of a reachable
    state is in its loop.  [RestartWorkers] goes from the test of
    [workersActive] straight to [Wait].  So once a generation with at
    least one worker is active, a call of [RestartWorkers] never gets past
    [Wait], where it is disabled, and the pool stays as it is: no worker
    leaves and none is started.  A generation without workers lets the
    next call through [Wait] at once. *)
Theorem restart_blocks_on_running_generation (s : Simple.State) :
  reachable s ->
  (forall env url c, fst (fst (Simple.worker_iteration env url c)) = Next) /\
  Forall (fun w => w_pc w = WLoop) (workers s) /\
  (ctl s = RCheck -> workersActive s = true -> workers s <> [] ->
   step LCtl s = Some (set_ctl RWait s) /\
   forall ls s',
     run ls s = Some s' ->
     at_join (ctl s') = true /\
     workers s' = workers s /\
     (ctl s' = RWait -> step LCtl s' = None)) /\
  (ctl s = RCheck -> workersActive s = true -> workers s = [] ->
   run [LCtl; LCtl] s = Some (set_ctl RNewClient (set_ctl RWait s))).
Proof.
  intros Hr. destruct (simple_reachable_Inv _ Hr) as (Hp & Hwg & Hloop & _ & _).
  split; [apply simple_iteration_next|].
  split; [exact Hloop|].
  split.
  - intros E A Hne.
    split.
    { unfold step, RestartWorkers_step. now rewrite Hp, E, A. }
    assert (blocked s) as Hb.
    { split; [|auto]. destruct (workers s); [congruence|cbn in Hwg; lia]. }
    intros ls s' Hrun.
    destruct (blocked_run _ _ _ Hb Hrun) as [Hb' Hw'].
    split; [now apply blocked_at_join|].
    split; [exact Hw'|].
    now apply blocked_Wait_disabled.
  - intros E A Hnil. rewrite Hnil in Hwg. cbn in Hwg.
    cbn [run]. unfold step at 1, RestartWorkers_step. rewrite Hp, E, A.
    unfold step, RestartWorkers_step. cbn. now rewrite Hp, Hwg.
Qed.

Lemma resize_state_reachable : reachable resize_state.
Proof. exists resize_schedule. vm_compute. reflexivity. Qed.

Lemma restart_blocks_on_running_generation_witness :
  run resize_schedule initial = Some resize_state /\
  forall ls s', run ls resize_state = Some s' ->
                at_join (ctl s') = true /\ workers s' = workers resize_state.
Proof.
  split; [vm_compute; reflexivity|].
  intros ls s' Hrun.
  destruct (restart_blocks_on_running_generation resize_state
              resize_state_reachable) as (_ & _ & H & _).
  destruct (H eq_refl eq_refl ltac:(discriminate)) as [_ H'].
  destruct (H' ls s' Hrun) as (H1 & H2 & _). split; assumption.
Defined.


(** *** Size of the pool and start-up *)

Lemma AddUint64_in_range v d : counter_in_range (AddUint64 v d).
Proof.
  unfold counter_in_range, AddUint64. apply Z.mod_pos_bound. reflexivity.
Qed.

(** The counter after an iteration of the simple worker. *)
Lemma simple_iteration_counter env url counter :
  snd (fst (worker_iteration env url counter)) = counter \/
  snd (fst (worker_iteration env url counter)) = AddUint64 counter 1.
Proof.
  unfold worker_iteration.
  destruct (request_ok env url); [destruct (do_result env 0%nat)|]; cbn; auto.
Qed.

Lemma simple_worker_step_counter w env s s' :
  worker_step w env s = Some s' ->
  s' = set_counter (reqCounter s) s \/
  s' = set_counter (AddUint64 (reqCounter s) 1) s.
Proof.
  unfold worker_step.
  destruct (workers s !! w) as [[c [|]]|]; try discriminate.
  pose proof (simple_iteration_next env (TargetURL (config (store s)))
                (reqCounter s)) as Hnext.
  pose proof (simple_iteration_counter env (TargetURL (config (store s)))
                (reqCounter s)) as Hc.
  destruct (worker_iteration env (TargetURL (config (store s))) (reqCounter s))
    as [[flow c'] evs].
  cbn in Hnext, Hc. subst flow. intros [= <-].
  destruct Hc as [->| ->]; auto.
Qed.

Lemma simple_stats_step_counter a b s s' :
  stats_step a b s = Some s' ->
  reqCounter s' = reqCounter s \/ reqCounter s' = 0.
Proof.
  unfold stats_step, LogStats_tick, SwapUint64. destruct (stats s) as [t0|].
  - destruct (milestone <=? reqCounter s); intros [= <-]; cbn; auto.
  - intros [= <-]. cbn. auto.
Qed.

(** What a step does to the counter, in the simple variant. *)
Lemma simple_counter_step l s s' :
  step l s = Some s' ->
  reqCounter s' = reqCounter s \/
  (exists w env, l = LWorker w env /\
                 reqCounter s' = AddUint64 (reqCounter s) 1) \/
  (exists a b, l = LStats a b /\ reqCounter s' = 0).
Proof.
  intros H. unfold step in H.
  destruct (panicked s); [discriminate|].
  destruct l as [f| |w env|a b].
  - unfold load_step in H. destruct (ctl s); try discriminate;
      injection H as <-; cbn; auto.
  - unfold RestartWorkers_step in H.
    destruct (ctl s); try discriminate;
      repeat match type of H with
             | context [if ?b then _ else _] => destruct b; try discriminate
             end; injection H as <-; cbn; auto.
  - destruct (simple_worker_step_counter _ _ _ _ H) as [->| ->]; cbn; eauto 6.
  - destruct (simple_stats_step_counter _ _ _ _ H) as [E|E]; eauto 6.
Qed.

Lemma simple_pool_ok_initial : simple_pool_ok initial.
Proof.
  unfold simple_pool_ok, counter_in_range. cbn.
  split; [split; [lia|reflexivity]|]. split; auto.
Qed.

Lemma simple_pool_ok_step l s s' :
  Inv s -> simple_pool_ok s -> step l s = Some s' -> simple_pool_ok s'.
Proof.
  intros (Hp & Hwg & Hloop & Hact & Hphase) (Hc & Hcl & Hsz) H.
  assert (counter_in_range (reqCounter s')) as Hc'.
  { destruct (simple_counter_step _ _ _ H) as [->|[(w & env & _ & ->)|(a & b & _ & ->)]];
      [exact Hc|apply AddUint64_in_range|split; [lia|reflexivity]]. }
  split; [exact Hc'|]. clear Hc'.
  simple_step_cases H.
  - (* LoadConfig *)
    destruct (ctl s) eqn:E; try discriminate; injection H as <-; cbn.
    + split; [exact Hcl|exact I].
    + split; [exact Hcl|].
      destruct (changed (LoadConfig f (store s))) eqn:Ech; [exact I|].
      now rewrite LoadConfig_false_unchanged.
  - (* RestartWorkers *)
    destruct (ctl s) eqn:E; try discriminate.
    + injection H as <-. cbn. split; [exact Hcl|].
      now destruct (workersActive s).
    + destruct (workerWg s =? 0); [|discriminate]. injection H as <-. cbn. auto.
    + injection H as <-. cbn. rewrite Hphase. split; [constructor|exact I].
    + injection H as <-. cbn. auto.
    + injection H as <-. cbn. rewrite Hphase. cbn.
      split; [constructor|]. split; [lia|]. split; [reflexivity|auto].
    + destruct Hsz as (H0 & Hlen & Hle).
      destruct (Z.ltb_spec i (Concurrency (config (store s))));
        injection H as <-; cbn.
      * split.
        { apply Forall_app. split; [exact Hcl|]. now apply Forall_singleton. }
        rewrite length_app. cbn. split; [lia|]. split; lia.
      * split; [exact Hcl|]. lia.
  - cbn. auto.
  - cbn. auto.
Qed.

Lemma simple_reachable_pool_ok s : reachable s -> Inv s /\ simple_pool_ok s.
Proof.
  intros [ls H].
  refine (simple_run_invariant (fun s => Inv s /\ simple_pool_ok s) _ ls _ _ _ H).
  - intros l s0 s1 [HI HP] Hstep.
    split; [eapply simple_Inv_step|eapply simple_pool_ok_step]; eassumption.
  - split; [apply simple_Inv_initial|apply simple_pool_ok_initial].
Qed.

(** X8.  In every reachable state of the simple variant the WaitGroup
    counter is the number of workers started, every one of them was
    started with the current client and is in its loop; and whenever
    [RestartWorkers] is not running, the workers are as many as
    [config.Concurrency] says (none when it is not positive). *)
Theorem simple_pool_follows_config (s : Simple.State) :
  reachable s ->
  workerWg s = Z.of_nat (length (workers s)) /\
  Forall (fun w => w_client w = client s /\ w_pc w = WLoop) (workers s) /\
  (ctl s = CMonitor ->
   length (workers s) = Z.to_nat (Concurrency (config (store s)))).
Proof.
  intros Hr.
  destruct (simple_reachable_pool_ok _ Hr)
    as [(_ & Hwg & Hloop & _ & _) (_ & Hcl & Hsz)].
  split; [exact Hwg|]. split.
  - apply Forall_forall. intros w Hin. split.
    + exact (proj1 (Forall_forall _ _) Hcl w Hin).
    + exact (proj1 (Forall_forall _ _) Hloop w Hin).
  - intros E. now rewrite E in Hsz.
Qed.

Lemma simple_pool_follows_config_witness :
  exists s,
    run (LLoad (mkObs (Some 1) (Opened (Some (mkConfig "http://a" 3))))
           :: repeat LCtl 8) initial = Some s /\
    workerWg s = 3 /\ length (workers s) = 3%nat.
Proof.
  destruct (run (LLoad (mkObs (Some 1) (Opened (Some (mkConfig "http://a" 3))))
                   :: repeat LCtl 8) initial) as [s|] eqn:Hrun;
    [|vm_compute in Hrun; discriminate].
  exists s. split; [reflexivity|].
  destruct (simple_pool_follows_config s) as (Hwg & _ & Hsz).
  { eexists. exact Hrun. }
  assert (ctl s = CMonitor /\ Concurrency (config (store s)) = 3) as [E C]
    by (vm_compute in Hrun; injection Hrun as <-; split; reflexivity).
  specialize (Hsz E). rewrite C in Hsz. split; [|exact Hsz].
  rewrite Hwg, Hsz. reflexivity.
Defined.

Lemma simple_step_LCtl s :
  panicked s = false -> step LCtl s = RestartWorkers_step s.
Proof. intros H. unfold step. now rewrite H. Qed.

(** The spawn loop from index [i]: one step per worker and one to leave. *)
Lemma simple_spawn_loop (n : nat) : forall s i,
  panicked s = false -> ctl s = RSpawn i ->
  Z.to_nat (Concurrency (config (store s)) - i) = n ->
  exists s',
    run (repeat LCtl (S n)) s = Some s' /\
    ctl s' = CMonitor /\ panicked s' = false /\
    workers s' = workers s ++ repeat (mkWorker (client s) WLoop) n /\
    workerWg s' = workerWg s + Z.of_nat n /\
    workersActive s' = workersActive s /\ store s' = store s.
Proof.
  induction n as [|n IH]; intros s i Hp Hctl Hn.
  - exists (set_ctl CMonitor s). cbn [repeat run].
    rewrite simple_step_LCtl by assumption. unfold RestartWorkers_step.
    rewrite Hctl. destruct (Z.ltb_spec i (Concurrency (config (store s)))); [lia|].
    cbn. rewrite app_nil_r. repeat split; auto. lia.
  - cbn [repeat run]. rewrite simple_step_LCtl by assumption.
    unfold RestartWorkers_step at 1. rewrite Hctl.
    destruct (Z.ltb_spec i (Concurrency (config (store s)))); [|lia].
    destruct (IH (set_ctl (RSpawn (i + 1))
                    (set_workers (workers s ++ [mkWorker (client s) WLoop])
                       (set_wg (workerWg s + 1) s))) (i + 1))
      as (s' & Hrun & H1 & H2 & H3 & H4 & H5 & H6);
      [exact Hp|reflexivity|cbn; lia|].
    exists s'. split; [exact Hrun|]. cbn in H3, H4, H5, H6.
    repeat split; auto.
    + rewrite H3, <- app_assoc. reflexivity.
    + lia.
Qed.

(** X9.  Start-up of the simple variant ends: called with the WaitGroup
    counter at zero (no generation yet, or one without workers),
    [RestartWorkers] returns after five steps, six if it had to pass
    [Wait], and one more per worker; it has then started exactly
    [config.Concurrency] workers (none if that is not positive), all with
    one new client, and set the counter to their number and
    [workersActive]. *)
Theorem simple_restart_returns_from_idle (s : Simple.State) :
  panicked s = false -> ctl s = RCheck -> workerWg s = 0 ->
  exists s',
    run (repeat LCtl ((if workersActive s then 6 else 5)
                      + Z.to_nat (Concurrency (config (store s))))) s
    = Some s' /\
    ctl s' = CMonitor /\
    workers s'
    = workers s ++ repeat (mkWorker (clients s) WLoop)
                          (Z.to_nat (Concurrency (config (store s)))) /\
    workerWg s' = Z.of_nat (Z.to_nat (Concurrency (config (store s)))) /\
    workersActive s' = true.
Proof.
  intros Hp Hctl Hwg.
  set (N := Z.to_nat (Concurrency (config (store s)))).
  set (s4 := set_ctl (RSpawn 0)
               (set_active true
                  (set_ctl RSetActive
                     (set_wg 0 (set_ctl RResetWg (new_client s)))))).
  destruct (simple_spawn_loop N s4 0) as (s' & Hrun & H1 & H2 & H3 & H4 & H5 & H6);
    [exact Hp|reflexivity|cbn; subst N; f_equal; lia|].
  exists s'. cbn in H3, H4.
  split; [|repeat split; auto; lia].
  destruct (workersActive s) eqn:A.
  - replace (6 + N)%nat with (5 + S N)%nat by lia.
    rewrite repeat_app, simple_run_app. cbn [repeat run].
    rewrite simple_step_LCtl by assumption.
    unfold RestartWorkers_step at 1. rewrite Hctl, A.
    rewrite simple_step_LCtl by assumption.
    unfold RestartWorkers_step at 1. cbn [ctl set_ctl workerWg].
    rewrite Hwg. cbn [Z.eqb].
    rewrite !simple_step_LCtl by assumption. cbn.
    destruct s. cbn in *. subst. exact Hrun.
  - replace (5 + N)%nat with (4 + S N)%nat by lia.
    rewrite repeat_app, simple_run_app. cbn [repeat run].
    rewrite simple_step_LCtl by assumption.
    unfold RestartWorkers_step at 1. rewrite Hctl, A.
    rewrite !simple_step_LCtl by assumption. cbn.
    destruct s. cbn in *. subst. exact Hrun.
Qed.

Lemma simple_restart_returns_from_idle_witness :
  exists s',
    run (repeat LCtl 8)
        (mkState (mkStore (mkConfig "http://a" 3) 1) 0 0 false [] RCheck
                 0%nat 0%nat None false) = Some s' /\
    ctl s' = CMonitor /\
    workers s' = [mkWorker 0 WLoop; mkWorker 0 WLoop; mkWorker 0 WLoop].
Proof.
  destruct (simple_restart_returns_from_idle
              (mkState (mkStore (mkConfig "http://a" 3) 1) 0 0 false [] RCheck
                       0%nat 0%nat None false) eq_refl eq_refl eq_refl)
    as (s' & Hrun & Hctl & Hw & _).
  exists s'. split; [exact Hrun|]. split; [exact Hctl|exact Hw].
Defined.




End SimpleSystem.

(** ** The rate-limited variant as a transition system *)

Section RateLimitedSystem.
Import RateLimited.

Lemma rl_run_app ls1 ls2 s :
  run (ls1 ++ ls2) s =
  match run ls1 s with Some s' => run ls2 s' | None => None end.
Proof.
  revert s. induction ls1 as [|l ls1 IH]; intros s; cbn [run app]; [reflexivity|].
  destruct (step l s); [apply IH|reflexivity].
Qed.


Lemma rl_run_invariant (P : State -> Prop) :
  (forall l s s', P s -> step l s = Some s' -> P s') ->
  forall ls s s', P s -> run ls s = Some s' -> P s'.
Proof.
  intros Hstep. induction ls as [|l ls IH]; intros s s' HP Hrun; cbn [run] in Hrun.
  - now injection Hrun as <-.
  - destruct (step l s) as [s1|] eqn:E; [|discriminate]. eauto.
Qed.

(** Splits a step into its cases, down to the state it produces. *)
Ltac rl_step_cases H :=
  unfold step, load_step, RestartWorkers_step, worker_step, producer_step,
    handoff_step, stats_step, Done, close_jobQueue, make_jobQueue in H;
  repeat match type of H with
         | context [worker_iteration ?e ?u ?c] =>
             let Hit := fresh "Hit" in
             destruct (rate_limited_iteration_next e u c) as (? & ? & Hit);
             rewrite Hit in H
         | context [match ?x with _ => _ end] =>
             destruct x eqn:?; try discriminate H
         end;
  injection H as <-.

Lemma Done_cases s :
  (workerWg s <= 0 /\ Done s = set_panicked s) \/
  (0 < workerWg s /\ Done s = set_wg (workerWg s - 1) s).
Proof.
  unfold Done. destruct (Z.leb_spec (workerWg s) 0); auto.
Qed.

Ltac rl_unfold :=
  unfold Inv, phase_ok, queue_closed, generation_running, worker_ok,
    live_workers, generation, set_worker, set_chan, set_producer in *.

(** The invariant reads the state through these fields only. *)
Lemma rl_Inv_ext s s' :
  panicked s' = panicked s -> workerWg s' = workerWg s ->
  workers s' = workers s -> clients s' = clients s -> client s' = client s ->
  jobQueue s' = jobQueue s -> chans s' = chans s -> ctl s' = ctl s ->
  store s' = store s -> workersActive s' = workersActive s ->
  Inv s -> Inv s'.
Proof.
  rl_unfold. intros -> -> -> -> -> -> -> -> -> ->. auto.
Qed.

Lemma rl_Inv_initial : Inv initial.
Proof. rl_unfold. cbn. intros _. repeat split; auto. Qed.

Lemma LoadConfig_false_keeps f st :
  changed (LoadConfig f st) = false -> store_after (LoadConfig f st) = st.
Proof.
  unfold LoadConfig, changed, store_after.
  destruct (obs_stat f) as [t|]; [|reflexivity].
  destruct (t =? lastModTime st); [reflexivity|].
  destruct (obs_open f) as [|[c|]]; [reflexivity|discriminate|reflexivity].
Qed.

Lemma rl_queue_closed_at s b ch c :
  queue_closed b s -> jobQueue s = Some ch -> chans s !! ch = Some c ->
  ch_closed c = b.
Proof.
  intros (ch' & c' & Hq & Hc & Hb) Hq' Hc'. congruence.
Qed.

Lemma rl_live_positive s w x :
  workerWg s = Z.of_nat (length (live_workers s)) ->
  workers s !! w = Some x -> live x = true -> 0 < workerWg s.
Proof.
  intros -> Hw Hl. unfold live_workers.
  pose proof (filter_length_pos live _ _ _ Hw Hl). lia.
Qed.

(** While workers are running, the queue exists; it is open and the whole
    generation is running, unless the thread waits at the join. *)
Lemma rl_phase_running s :
  phase_ok s -> 0 < workerWg s ->
  (queue_closed false s /\ generation_running s) \/
  (ctl s = RWait /\ queue_closed true s).
Proof.
  unfold phase_ok. intros H Hwg.
  destruct (ctl s); try (destruct (workersActive s)); intuition lia.
Qed.

Lemma rl_phase_ok_mono s s' :
  ctl s' = ctl s -> workersActive s' = workersActive s ->
  workerWg s' = workerWg s -> client s' = client s ->
  clients s' = clients s -> store s' = store s ->
  (forall b, queue_closed b s -> queue_closed b s') ->
  (generation_running s -> generation_running s') ->
  length (generation (client s) s') = length (generation (client s) s) ->
  phase_ok s -> phase_ok s'.
Proof.
  intros Hctl Hact Hwg Hcl Hcls Hst Hq Hrun Hlen.
  unfold phase_ok. rewrite Hctl, Hact, Hwg, Hcl, Hcls, Hst, Hlen.
  assert (generation (client s) s = [] -> generation (client s) s' = []) as Hnil.
  { intros E. apply length_zero_iff_nil. rewrite Hlen, E. reflexivity. }
  destruct (ctl s); try (destruct (workersActive s)); intuition auto.
Qed.

Lemma rl_queue_closed_set_chan s ch cap len len' closed b :
  chans s !! ch = Some (mkChan cap len closed) ->
  queue_closed b s ->
  queue_closed b (set_chan ch (mkChan cap len' closed) s).
Proof.
  intros Hc (ch' & c' & Hq & Hc' & Hb). unfold queue_closed, set_chan. cbn.
  exists ch'. destruct (Nat.eq_dec ch' ch) as [->|Hne].
  - eexists. split; [exact Hq|]. split.
    + apply list_lookup_insert_eq. eapply lookup_lt_Some; eassumption.
    + rewrite Hc in Hc'. injection Hc' as <-. exact Hb.
  - exists c'. split; [exact Hq|]. split; [|exact Hb].
    rewrite list_lookup_insert_ne by congruence. exact Hc'.
Qed.

(** Buffering or taking a value keeps the invariant. *)
Lemma rl_Inv_set_chan s ch cap len len' closed :
  chans s !! ch = Some (mkChan cap len closed) ->
  Inv s -> Inv (set_chan ch (mkChan cap len' closed) s).
Proof.
  intros Hc HI Hp. destruct (HI Hp) as (H1 & H2 & H3 & H4).
  split; [exact H1|]. split; [exact H2|]. split; [exact H3|].
  apply (rl_phase_ok_mono s); try reflexivity; auto.
  intros b Hb. eapply rl_queue_closed_set_chan; eassumption.
Qed.

(** What the invariant says of a worker that receives from a channel. *)
Lemma rl_worker_queue s w c pc ch :
  Inv s -> panicked s = false ->
  workers s !! w = Some (mkWorker c pc) ->
  pc = WRecv ch \/ pc = WBody ch ->
  jobQueue s = Some ch.
Proof.
  intros HI Hp Hw Hpc. destruct (HI Hp) as (_ & H2 & _).
  pose proof (Forall_lookup_1 _ _ _ _ H2 Hw) as Hok.
  destruct Hok as (_ & ch' & Hq & Hpc').
  - destruct Hpc as [->| ->]; reflexivity.
  - cbn in Hpc'. rewrite Hq. f_equal.
    destruct Hpc as [->| ->]; destruct Hpc' as [?|[?|?]]; congruence.
Qed.

(** A running worker moves on and keeps running. *)
Lemma rl_Inv_worker_move s w c pc pc' :
  Inv s -> panicked s = false ->
  workers s !! w = Some (mkWorker c pc) ->
  live (mkWorker c pc) = true ->
  (exists ch, jobQueue s = Some ch /\ (pc' = WRecv ch \/ pc' = WBody ch)) ->
  Inv (set_worker w (mkWorker c pc') s).
Proof.
  intros HI Hp Hw Hl (ch & Hq & Hpc') _. destruct (HI Hp) as (H1 & H2 & H3 & H4).
  assert (live (mkWorker c pc') = true) as Hl'
    by (destruct Hpc' as [->| ->]; reflexivity).
  pose proof (Forall_lookup_1 _ _ _ _ H2 Hw) as Hok.
  pose proof (Forall_lookup_1 _ _ _ _ H3 Hw) as Hlt.
  destruct (Hok Hl) as (Hc & _). cbn in Hc, Hlt.
  split; [|split; [|split]].
  - unfold live_workers, set_worker. cbn.
    rewrite (filter_insert_same live _ _ _ _ Hw); [exact H1|congruence].
  - unfold set_worker. cbn. apply Forall_insert; [exact H2|].
    intros _. cbn. split; [exact Hc|]. exists ch. tauto.
  - unfold set_worker. cbn. apply Forall_insert; [exact H3|exact Hlt].
  - apply (rl_phase_ok_mono s); try reflexivity; auto.
    + unfold generation_running, set_worker. cbn. intros Hr.
      apply Forall_insert; [exact Hr|]. intros _. exact Hl'.
    + unfold generation, set_worker. cbn.
      apply (filter_insert_same _ _ _ _ _ Hw). reflexivity.
Qed.

(** A worker that finds the queue closed and empty returns. *)
Lemma rl_Inv_worker_exit s w c ch cap :
  Inv s -> panicked s = false ->
  workers s !! w = Some (mkWorker c (WRecv ch)) ->
  chans s !! ch = Some (mkChan cap 0 true) ->
  Inv (set_wg (workerWg s - 1) (set_worker w (mkWorker c WExited) s)).
Proof.
  intros HI Hp Hw Hch _. destruct (HI Hp) as (H1 & H2 & H3 & H4).
  pose proof (rl_worker_queue _ _ _ _ _ HI Hp Hw (or_introl eq_refl)) as Hq.
  pose proof (rl_live_positive _ _ _ H1 Hw eq_refl) as Hpos.
  pose proof (Forall_lookup_1 _ _ _ _ H3 Hw) as Hlt.
  destruct (rl_phase_running _ H4 Hpos) as [[Ho _]|[Hctl Hcl]].
  { pose proof (rl_queue_closed_at _ _ _ _ Ho Hq Hch). discriminate. }
  split; [|split; [|split]].
  - unfold live_workers, set_worker in *. cbn.
    pose proof (filter_insert_length live _ _ _ (mkWorker c WExited) Hw) as L.
    cbn in L. lia.
  - unfold set_worker. cbn. apply Forall_insert; [exact H2|].
    intros Hl. discriminate Hl.
  - unfold set_worker. cbn. apply Forall_insert; [exact H3|exact Hlt].
  - unfold phase_ok. cbn. rewrite Hctl. exact Hcl.
Qed.

Lemma rl_no_live_workers s :
  workerWg s = Z.of_nat (length (live_workers s)) -> workerWg s = 0 ->
  Forall (fun w => live w = false) (workers s).
Proof.
  intros H1 H0. apply filter_nil_Forall. unfold live_workers in H1. lia.
Qed.

(** Unpacks the invariant of a state at a known point of the thread. *)
Ltac rl_open HI Hp Hctl :=
  let H1 := fresh "H1" in
  let H2 := fresh "H2" in
  let H3 := fresh "H3" in
  let H4 := fresh "H4" in
  destruct (HI Hp) as (H1 & H2 & H3 & H4);
  unfold phase_ok in H4; rewrite Hctl in H4;
  intros _; unfold Inv, phase_ok, live_workers, generation; cbn;
  unfold live_workers, generation in *.

Lemma rl_Inv_first_load s st :
  Inv s -> panicked s = false -> ctl s = CMain ->
  Inv (set_ctl RCheck (set_store st s)).
Proof.
  intros HI Hp Hctl. rl_open HI Hp Hctl. destruct H4 as [Hwg ->]. auto.
Qed.

Lemma rl_Inv_reload s st :
  Inv s -> panicked s = false -> ctl s = CMonitor ->
  Inv (set_ctl RCheck (set_store st s)).
Proof.
  intros HI Hp Hctl. rl_open HI Hp Hctl.
  destruct H4 as (Hq & Hr & -> & _). auto.
Qed.

Lemma rl_Inv_check s :
  Inv s -> panicked s = false -> ctl s = RCheck ->
  Inv (set_ctl (if workersActive s then RClose else RNewClient) s).
Proof.
  intros HI Hp Hctl. rl_open HI Hp Hctl.
  destruct (workersActive s); auto.
Qed.

Lemma rl_Inv_close s ch cap len :
  Inv s -> panicked s = false -> ctl s = RClose ->
  jobQueue s = Some ch -> chans s !! ch = Some (mkChan cap len false) ->
  Inv (set_ctl RWait (set_chans (<[ch := mkChan cap len true]> (chans s)) s)).
Proof.
  intros HI Hp Hctl Hq Hch. rl_open HI Hp Hctl.
  repeat split; auto.
  exists ch. eexists. split; [exact Hq|]. split.
  - apply list_lookup_insert_eq. eapply lookup_lt_Some; eassumption.
  - reflexivity.
Qed.

Lemma rl_Inv_wait s :
  Inv s -> panicked s = false -> ctl s = RWait -> workerWg s = 0 ->
  Inv (set_ctl RNewClient s).
Proof.
  intros HI Hp Hctl Hwg. rl_open HI Hp Hctl. auto.
Qed.

Lemma rl_Inv_new_client s :
  Inv s -> panicked s = false -> ctl s = RNewClient ->
  Inv (set_ctl RResetWg (new_client s)).
Proof.
  intros HI Hp Hctl. rl_open HI Hp Hctl.
  pose proof (rl_no_live_workers s H1 H4) as Hdead.
  repeat split; auto.
  - eapply Forall_impl; [exact Hdead|]. intros w Hw Hl. congruence.
  - eapply Forall_impl; [exact H3|]. cbn. intros w Hw. lia.
  - clear -H3. induction H3 as [|w ws Hw _ IH]; [reflexivity|].
    cbn. unfold bound_to at 1.
    destruct (Nat.eqb_spec (w_client w) (clients s)); [lia|exact IH].
Qed.

Lemma rl_Inv_reset_wg s :
  Inv s -> panicked s = false -> ctl s = RResetWg ->
  Inv (set_ctl RSetActive (set_wg 0 s)).
Proof.
  intros HI Hp Hctl. rl_open HI Hp Hctl.
  destruct H4 as (Hwg & Hg & Hc). repeat split; auto. congruence.
Qed.

Lemma rl_Inv_set_active s :
  Inv s -> panicked s = false -> ctl s = RSetActive ->
  Inv (set_ctl RMake (set_active true s)).
Proof.
  intros HI Hp Hctl. rl_open HI Hp Hctl. intuition auto.
Qed.

Lemma rl_Inv_make s :
  Inv s -> panicked s = false -> ctl s = RMake ->
  Inv (set_ctl (RSpawn 0)
         (set_jobQueue (Some (length (chans s)))
            (set_chans
               (chans s ++
                [mkChan (Z.to_nat (Concurrency (config (store s)))) 0 false])
               s))).
Proof.
  intros HI Hp Hctl. rl_open HI Hp Hctl.
  destruct H4 as (Hwg & Hg & Hc & Hact).
  pose proof (rl_no_live_workers s H1 Hwg) as Hdead.
  split; [exact H1|]. split.
  { eapply Forall_impl; [exact Hdead|]. intros w Hw Hl. congruence. }
  split; [exact H3|].
  split.
  { eexists. eexists. split; [reflexivity|]. split.
    - cbn. rewrite lookup_app_r by lia. rewrite Nat.sub_diag. reflexivity.
    - reflexivity. }
  split.
  { unfold generation_running. cbn. apply Forall_forall. intros w Hin Hb.
    assert (In w (List.filter (bound_to (client s)) (workers s))) as Hin'
      by (apply List.filter_In; split; [now apply list_elem_of_In|exact Hb]).
    rewrite Hg in Hin'. destruct Hin'. }
  rewrite Hg. cbn. repeat split; auto; lia.
Qed.

Lemma rl_Inv_spawn s i :
  Inv s -> panicked s = false -> ctl s = RSpawn i ->
  i < Concurrency (config (store s)) ->
  Inv (set_ctl (RSpawn (i + 1))
         (set_workers (workers s ++ [mkWorker (client s) WStart])
            (set_wg (workerWg s + 1) s))).
Proof.
  intros HI Hp Hctl Hi. rl_open HI Hp Hctl.
  destruct H4 as (Hq & Hr & Hact & Hc & H0 & Hlen & Hle).
  split; [|split; [|split]].
  - rewrite filter_snoc_length. cbn. lia.
  - apply Forall_app. split; [exact H2|].
    apply Forall_singleton. intros _. cbn. split; [reflexivity|].
    destruct Hq as (ch & c & Hq & _). exists ch. auto.
  - apply Forall_app. split; [exact H3|]. apply Forall_singleton. exact Hc.
  - split; [exact Hq|]. split.
    { unfold generation_running in *. cbn. apply Forall_app.
      split; [exact Hr|]. apply Forall_singleton. reflexivity. }
    split; [exact Hact|]. split; [exact Hc|]. split; [lia|].
    split; [|lia].
    rewrite filter_snoc_length. unfold bound_to at 2. cbn.
    rewrite Nat.eqb_refl. lia.
Qed.

Lemma rl_Inv_spawn_done s i :
  Inv s -> panicked s = false -> ctl s = RSpawn i ->
  Concurrency (config (store s)) <= i ->
  Inv (set_ctl RGoProducer s).
Proof.
  intros HI Hp Hctl Hi. rl_open HI Hp Hctl.
  destruct H4 as (Hq & Hr & Hact & Hc & H0 & Hlen & Hle).
  repeat split; auto. lia.
Qed.

Lemma rl_Inv_go_producer s ps :
  Inv s -> panicked s = false -> ctl s = RGoProducer ->
  Inv (set_ctl CMonitor (set_producers ps s)).
Proof.
  intros HI Hp Hctl. rl_open HI Hp Hctl. auto.
Qed.

Lemma rl_running_queue s w x :
  Inv s -> panicked s = false -> workers s !! w = Some x -> live x = true ->
  exists ch, jobQueue s = Some ch.
Proof.
  intros HI Hp Hw Hl. destruct (HI Hp) as (_ & H2 & _).
  destruct (Forall_lookup_1 _ _ _ _ H2 Hw Hl) as (_ & ch & Hq & _). eauto.
Qed.

(** Turns boolean tests left by a case split into propositions. *)
Ltac rl_tests :=
  repeat match goal with
         | H : (_ =? _) = true |- _ => apply Z.eqb_eq in H
         | H : (_ <? _) = true |- _ => apply Z.ltb_lt in H
         | H : (_ <? _) = false |- _ => apply Z.ltb_ge in H
         | H : (_ <=? _) = false |- _ => apply Z.leb_gt in H
         | H : (_ <? _)%nat = false |- _ => apply Nat.ltb_ge in H
         | H : (_ <? _)%nat = true |- _ => apply Nat.ltb_lt in H
         | H : Nat.eqb _ _ = true |- _ => apply Nat.eqb_eq in H; subst
         end.

Lemma rl_Inv_step l s s' : Inv s -> step l s = Some s' -> Inv s'.
Proof.
  intros HI H. rl_step_cases H.
  all: try solve [eapply rl_Inv_ext; [..|exact HI]; reflexivity].
  all: try solve [intros Hp; cbn in Hp; discriminate Hp].
  all: rl_tests.
  all: try solve [eauto using rl_Inv_first_load, rl_Inv_reload, rl_Inv_close,
                    rl_Inv_wait, rl_Inv_new_client, rl_Inv_reset_wg,
                    rl_Inv_set_active, rl_Inv_make, rl_Inv_spawn,
                    rl_Inv_spawn_done, rl_Inv_go_producer].
  all: try match goal with
    | Hc : ctl ?s = RCheck, Ha : workersActive ?s = _ |- _ =>
        let G := fresh in
        pose proof (rl_Inv_check s HI ltac:(assumption) Hc) as G;
        rewrite Ha in G; exact G
    end.
  all: try match goal with
    | Hw : workers ?s !! _ = Some _, Hq : jobQueue ?s = None |- _ =>
        destruct (rl_running_queue _ _ _ HI ltac:(assumption) Hw eq_refl);
        congruence
    end.
  - (* LoadConfig returns false *)
    rewrite LoadConfig_false_keeps by assumption.
    eapply rl_Inv_ext; [..|exact HI]; try reflexivity. cbn. congruence.
  - (* the range clause reads jobQueue *)
    eapply rl_Inv_worker_move; eauto.
  - (* a job is received *)
    eapply rl_Inv_worker_move.
    + eapply rl_Inv_set_chan; eassumption.
    + assumption.
    + eassumption.
    + reflexivity.
    + exists ch. split; [|auto]. cbn.
      eapply rl_worker_queue; eauto.
  - (* the queue is closed and empty *)
    assert (ch_len0 = 0%nat) as -> by lia.
    eapply rl_Inv_worker_exit; eassumption.
  - (* the body has run *)
    eapply rl_Inv_worker_move.
    + eapply rl_Inv_ext; [..|exact HI]; reflexivity.
    + assumption.
    + eassumption.
    + reflexivity.
    + exists ch. split; [|auto]. cbn.
      eapply rl_worker_queue; eauto.
  - (* the producer buffers a job *)
    eapply rl_Inv_ext; [..|eapply rl_Inv_set_chan; eassumption]; reflexivity.
  - (* the producer hands a job to a worker *)
    eapply rl_Inv_ext;
      [..|eapply (rl_Inv_worker_move s w w_client0 (WRecv ch0) (WBody ch0))];
      try reflexivity; try assumption.
    exists ch0. split; [|auto]. eapply rl_worker_queue; eauto.
Qed.

Lemma rl_reachable_Inv s : reachable s -> Inv s.
Proof.
  intros [ls H]. exact (rl_run_invariant Inv rl_Inv_step ls _ _ rl_Inv_initial H).
Qed.

(** No step takes a producer away: the list only grows. *)
Lemma producers_never_leave l s s' :
  step l s = Some s' -> (length (producers s) <= length (producers s'))%nat.
Proof.
  intros H. rl_step_cases H.
  all: unfold set_producer, set_worker, set_chan; cbn;
    rewrite ?length_insert, ?length_app; cbn; lia.
Qed.











(** *** The counter, the producers and the queues *)

Lemma LogStats_tick_counter a b t c : snd (fst (LogStats_tick a b t c)) = 0.
Proof.
  unfold LogStats_tick, SwapUint64. now destruct (milestone <=? c).
Qed.

Lemma rate_limited_iteration_counter env url counter c evs :
  worker_iteration env url counter = Some (Next, c, evs) ->
  c = counter \/ c = AddUint64 counter 1.
Proof.
  intros H.
  destruct (rate_limited_iteration_cases env url counter)
    as [(_ & E)|[(_ & _ & E)|[(_ & _ & _ & E)|[(_ & _ & _ & _ & E)
        |(_ & _ & _ & _ & E)]]]];
    rewrite E in H; injection H as <- _; auto.
Qed.

(** What a step does to the counter, in the rate-limited variant. *)
Lemma rl_counter_step l s s' :
  step l s = Some s' ->
  reqCounter s' = reqCounter s \/
  (exists w env, l = LWorker w env /\
                 reqCounter s' = AddUint64 (reqCounter s) 1) \/
  (exists a b, l = LStats a b /\ reqCounter s' = 0).
Proof.
  intros H. rl_step_cases H.
  all: unfold set_worker, set_chan, set_producer; cbn; try solve [auto].
  - match goal with
    | Hit : worker_iteration _ _ _ = Some _ |- _ =>
        destruct (rate_limited_iteration_counter _ _ _ _ _ Hit) as [->| ->]
    end; eauto 6.
  - match goal with
    | E : LogStats_tick ?a ?b ?t ?c = _ |- _ =>
        pose proof (LogStats_tick_counter a b t c) as Hz; rewrite E in Hz
    end. cbn in Hz. subst. eauto 6.
Qed.

Lemma producers_counted_step l s s' :
  producers_counted s -> step l s = Some s' -> producers_counted s'.
Proof.
  unfold producers_counted. intros HP H. rl_step_cases H.
  all: unfold set_worker, set_chan, set_producer; cbn in *;
    rewrite ?length_insert, ?length_app; cbn; try lia; try assumption.
Qed.

Lemma rl_reachable_producers_counted s : reachable s -> producers_counted s.
Proof.
  intros [ls H].
  refine (rl_run_invariant producers_counted producers_counted_step
            ls initial s _ H).
  reflexivity.
Qed.

(** X12.  One producer goroutine is started by each call of
    [RestartWorkers] that gets to its end and none ever leaves: whenever
    [RestartWorkers] is not running, the producers are as many as the
    clients created so far, that is, as the generations started. *)
Theorem one_producer_per_restart (s : RateLimited.State) :
  reachable s ->
  (ctl s = CMonitor -> length (producers s) = clients s) /\
  (forall l s', step l s = Some s' ->
                (length (producers s) <= length (producers s'))%nat).
Proof.
  intros Hr. split.
  - intros E. pose proof (rl_reachable_producers_counted _ Hr) as H.
    unfold producers_counted in H. now rewrite E in H.
  - intros l s'. apply producers_never_leave.
Qed.

Lemma one_producer_per_restart_witness :
  exists s,
    run overlap_schedule initial = Some s /\
    length (producers s) = 2%nat /\ clients s = 2%nat.
Proof.
  destruct (run overlap_schedule initial) as [s|] eqn:Hrun;
    [|vm_compute in Hrun; discriminate].
  exists s. split; [reflexivity|].
  destruct (one_producer_per_restart s) as [H _]; [eexists; exact Hrun|].
  assert (ctl s = CMonitor /\ clients s = 2%nat) as [E C]
    by (vm_compute in Hrun; injection Hrun as <-; split; reflexivity).
  split; [|exact C]. rewrite <- C. exact (H E).
Defined.

Lemma queues_bounded_step l s s' :
  queues_bounded s -> step l s = Some s' -> queues_bounded s'.
Proof.
  unfold queues_bounded. intros HB H. rl_step_cases H; rl_tests.
  all: unfold set_worker, set_chan, set_producer; cbn; try assumption.
  all: try (apply Forall_insert; [assumption|]).
  all: try (apply Forall_app; split; [assumption|apply Forall_singleton]).
  all: try match goal with
           | E : chans _ !! _ = Some _ |- _ =>
               pose proof (Forall_lookup_1 _ _ _ _ HB E) as Hle; cbn in Hle
           end.
  all: cbn; lia.
Qed.

Lemma lookup_set_chan_cap (cs : list Chan) ch0 ch cap len len' closed closed' c :
  cs !! ch0 = Some (mkChan cap len closed) ->
  cs !! ch = Some c ->
  exists c', <[ch0 := mkChan cap len' closed']> cs !! ch = Some c' /\
             ch_cap c' = ch_cap c.
Proof.
  intros H0 H. destruct (Nat.eq_dec ch0 ch) as [->|Hne].
  - eexists. split.
    + apply list_lookup_insert_eq. eapply lookup_lt_Some; eassumption.
    + rewrite H0 in H. injection H as <-. reflexivity.
  - exists c. split; [|reflexivity]. now rewrite list_lookup_insert_ne.
Qed.

Lemma queue_sized_step l s s' :
  queue_sized s -> step l s = Some s' -> queue_sized s'.
Proof.
  unfold queue_sized. intros HQ H Hp'. rl_step_cases H; rl_tests.
  all: specialize (HQ eq_refl).
  all: unfold set_worker, set_chan, set_producer in *; cbn in *;
    try exact I; try discriminate Hp'.
  all: try match goal with
           | E : jobQueue ?s = _ |- context [jobQueue ?s] => rewrite E
           end.
  all: try assumption.
  - (* LoadConfig returns false *)
    now rewrite LoadConfig_false_unchanged.
  - (* make *)
    eexists. eexists. split; [reflexivity|]. split.
    + rewrite lookup_app_r by lia. rewrite Nat.sub_diag. reflexivity.
    + reflexivity.
  - (* a job is received *)
    destruct (ctl s); try exact I;
      destruct HQ as (ch0 & c0 & Hq & Hc & Hcap);
      (edestruct lookup_set_chan_cap as (c' & Hc' & Hcap');
       [eassumption|exact Hc|]);
      exists ch0, c'; (split; [exact Hq|]); (split; [exact Hc'|]); congruence.
  - (* the producer buffers a job *)
    destruct (ctl s); try exact I;
      destruct HQ as (ch0 & c0 & Hq & Hc & Hcap);
      (edestruct lookup_set_chan_cap as (c' & Hc' & Hcap');
       [eassumption|exact Hc|]);
      exists ch0, c'; (split; [exact Hq|]); (split; [exact Hc'|]); congruence.
Qed.

Lemma rl_reachable_queues s : reachable s -> queues_bounded s /\ queue_sized s.
Proof.
  intros [ls H].
  refine (rl_run_invariant (fun s => queues_bounded s /\ queue_sized s) _
            ls initial s _ H).
  - intros l s0 s1 [HB HQ] Hstep.
    split; [eapply queues_bounded_step|eapply queue_sized_step]; eassumption.
  - split; [constructor|]. intros _. exact I.
Qed.

(** X13.  No channel ever holds more values than its capacity, and from
    the end of one [RestartWorkers] to the next call the job queue is
    open, of capacity [config.Concurrency], and holds at most that many
    jobs: the producer never runs ahead of the workers by more than one
    job per worker. *)
Theorem job_queue_bounded_by_concurrency (s : RateLimited.State) :
  reachable s ->
  Forall (fun c => (ch_len c <= ch_cap c)%nat) (chans s) /\
  (panicked s = false -> generation_complete (ctl s) = true ->
   exists ch c,
     jobQueue s = Some ch /\ chans s !! ch = Some c /\
     ch_closed c = false /\
     ch_cap c = Z.to_nat (Concurrency (config (store s))) /\
     (ch_len c <= Z.to_nat (Concurrency (config (store s))))%nat).
Proof.
  intros Hr. destruct (rl_reachable_queues _ Hr) as [HB HQ].
  split; [exact HB|]. intros Hp Hc.
  destruct (rl_reachable_Inv _ Hr Hp) as (_ & _ & _ & H4).
  specialize (HQ Hp). unfold phase_ok in H4.
  assert (queue_closed false s) as Hopen
    by (destruct (ctl s); try discriminate Hc; tauto).
  assert (exists ch c, jobQueue s = Some ch /\ chans s !! ch = Some c /\
                       ch_cap c = Z.to_nat (Concurrency (config (store s))))
    as (ch & c & Hq & Hch & Hcap)
    by (destruct (ctl s); try discriminate Hc; exact HQ).
  exists ch, c. split; [exact Hq|]. split; [exact Hch|].
  split; [exact (rl_queue_closed_at _ _ _ _ Hopen Hq Hch)|].
  split; [exact Hcap|].
  rewrite <- Hcap. exact (Forall_lookup_1 _ _ _ _ HB Hch).
Qed.

Lemma job_queue_bounded_by_concurrency_witness :
  exists s,
    run (overlap_schedule ++ [LProducer 0; LProducer 1; LProducer 0; LProducer 1])
        initial = Some s /\
    exists ch c,
      jobQueue s = Some ch /\ chans s !! ch = Some c /\
      ch_cap c = 2%nat /\ (ch_len c <= 2)%nat.
Proof.
  destruct (run (overlap_schedule
                   ++ [LProducer 0; LProducer 1; LProducer 0; LProducer 1])
                initial) as [s|] eqn:Hrun;
    [|vm_compute in Hrun; discriminate].
  exists s. split; [reflexivity|].
  destruct (job_queue_bounded_by_concurrency s) as [_ H];
    [eexists; exact Hrun|].
  assert (panicked s = false /\ generation_complete (ctl s) = true /\
          Concurrency (config (store s)) = 2) as (Hp & Hc & C)
    by (vm_compute in Hrun; injection Hrun as <-; repeat split).
  destruct (H Hp Hc) as (ch & c & Hq & Hch & _ & Hcap & Hlen).
  rewrite C in Hcap, Hlen. exists ch, c. auto.
Defined.





(** *** Start-up and the join *)

Lemma rl_step_LCtl s :
  panicked s = false -> step LCtl s = RestartWorkers_step s.
Proof. intros H. unfold step. now rewrite H. Qed.

(** The spawn loop from index [i]: one step per worker and one to leave. *)
Lemma rl_spawn_loop (n : nat) : forall s i,
  panicked s = false -> ctl s = RSpawn i ->
  Z.to_nat (Concurrency (config (store s)) - i) = n ->
  exists s',
    run (repeat LCtl (S n)) s = Some s' /\
    ctl s' = RGoProducer /\ panicked s' = false /\
    workers s' = workers s ++ repeat (mkWorker (client s) WStart) n /\
    workerWg s' = workerWg s + Z.of_nat n /\
    workersActive s' = workersActive s /\ store s' = store s /\
    jobQueue s' = jobQueue s /\ chans s' = chans s /\
    producers s' = producers s.
Proof.
  induction n as [|n IH]; intros s i Hp Hctl Hn.
  - exists (set_ctl RGoProducer s). cbn [repeat run].
    rewrite rl_step_LCtl by assumption. unfold RestartWorkers_step.
    rewrite Hctl. destruct (Z.ltb_spec i (Concurrency (config (store s)))); [lia|].
    cbn. rewrite app_nil_r. repeat split; auto. lia.
  - cbn [repeat run]. rewrite rl_step_LCtl by assumption.
    unfold RestartWorkers_step at 1. rewrite Hctl.
    destruct (Z.ltb_spec i (Concurrency (config (store s)))); [|lia].
    destruct (IH (set_ctl (RSpawn (i + 1))
                    (set_workers (workers s ++ [mkWorker (client s) WStart])
                       (set_wg (workerWg s + 1) s))) (i + 1))
      as (s' & Hrun & H1 & H2 & H3 & H4 & H5 & H6 & H7 & H8 & H9);
      [exact Hp|reflexivity|cbn; lia|].
    exists s'. split; [exact Hrun|]. cbn in H3, H4, H5, H6, H7, H8, H9.
    repeat split; auto.
    + rewrite H3, <- app_assoc. reflexivity.
    + lia.
Qed.

(** X16.  Start-up of the rate-limited variant.  Called with no generation
    active and a concurrency of [N >= 0], [RestartWorkers] returns after
    seven steps and one more per worker, without panic: it has made a
    queue of capacity [N], started exactly [N] workers with one new
    client, set the WaitGroup counter to [N] and started one producer.
    With a negative concurrency it panics at [make], after setting
    [workersActive] and before starting any worker or producer. *)
Theorem rate_limited_start (s : RateLimited.State) :
  panicked s = false -> ctl s = RCheck -> workersActive s = false ->
  (0 <= Concurrency (config (store s)) ->
   exists s',
     run (repeat LCtl (7 + Z.to_nat (Concurrency (config (store s))))) s
     = Some s' /\
     ctl s' = CMonitor /\ panicked s' = false /\ workersActive s' = true /\
     workers s'
     = workers s ++ repeat (mkWorker (clients s) WStart)
                           (Z.to_nat (Concurrency (config (store s)))) /\
     workerWg s' = Z.of_nat (Z.to_nat (Concurrency (config (store s)))) /\
     jobQueue s' = Some (length (chans s)) /\
     chans s'
     = chans s ++ [mkChan (Z.to_nat (Concurrency (config (store s)))) 0 false] /\
     producers s' = producers s ++ [PEval]) /\
  (Concurrency (config (store s)) < 0 ->
   exists s',
     run (repeat LCtl 5) s = Some s' /\
     panicked s' = true /\ workersActive s' = true /\
     workers s' = workers s /\ producers s' = producers s /\
     jobQueue s' = jobQueue s).
Proof.
  intros Hp Hctl Hact.
  assert (run (repeat LCtl 5) s
          = Some (set_ctl (RSpawn 0)
                    (make_jobQueue (Concurrency (config (store s)))
                       (set_ctl RMake
                          (set_active true
                             (set_ctl RSetActive
                                (set_wg 0
                                   (set_ctl RResetWg (new_client s))))))))) as H5.
  { destruct s; cbn in Hp, Hctl, Hact; subst; reflexivity. }
  split.
  - intros Hc.
    set (N := Z.to_nat (Concurrency (config (store s)))).
    set (s5 := set_ctl (RSpawn 0)
                 (set_jobQueue (Some (length (chans s)))
                    (set_chans (chans s ++ [mkChan N 0 false])
                       (set_ctl RMake
                          (set_active true
                             (set_ctl RSetActive
                                (set_wg 0
                                   (set_ctl RResetWg (new_client s))))))))).
    destruct (rl_spawn_loop N s5 0)
      as (s6 & Hrun & H1 & H2 & H3 & H4 & H5' & H6 & H7 & H8 & H9);
      [exact Hp|reflexivity|cbn; subst N; f_equal; lia|].
    exists (set_ctl CMonitor (set_producers (producers s6 ++ [PEval]) s6)).
    cbn in H3, H4, H5', H6, H7, H8, H9.
    split; [|cbn; repeat split; auto; try congruence; lia].
    replace (7 + N)%nat with (5 + (S N + 1))%nat by lia.
    rewrite repeat_app, rl_run_app, H5. unfold make_jobQueue.
    destruct (Z.ltb_spec (Concurrency (config (store s))) 0); [lia|].
    rewrite repeat_app, rl_run_app.
    match goal with
    | |- context [run (repeat LCtl (S N)) ?x] => change x with s5
    end.
    rewrite Hrun. cbn [repeat run]. rewrite rl_step_LCtl by exact H2.
    unfold RestartWorkers_step. now rewrite H1.
  - intros Hc. eexists. split.
    + rewrite H5. unfold make_jobQueue.
      destruct (Z.ltb_spec (Concurrency (config (store s))) 0); [|lia].
      reflexivity.
    + cbn. auto.
Qed.

Lemma rate_limited_start_witness :
  (exists s',
      run (repeat LCtl 9)
          (mkState (mkStore (mkConfig "http://a" 2) 1) 0 0 false None [] [] []
                   RCheck 0%nat 0%nat None false) = Some s' /\
      workers s' = [mkWorker 0 WStart; mkWorker 0 WStart] /\
      chans s' = [mkChan 2 0 false] /\ producers s' = [PEval]) /\
  (exists s',
      run (repeat LCtl 5)
          (mkState (mkStore (mkConfig "http://a" (-2)) 1) 0 0 false None [] []
                   [] RCheck 0%nat 0%nat None false) = Some s' /\
      panicked s' = true /\ workers s' = []).
Proof.
  split.
  - destruct (rate_limited_start
                (mkState (mkStore (mkConfig "http://a" 2) 1) 0 0 false None []
                         [] [] RCheck 0%nat 0%nat None false)
                eq_refl eq_refl eq_refl) as [H _].
    destruct (H ltac:(cbn; lia))
      as (s' & Hrun & _ & _ & _ & Hw & _ & _ & Hc & Hpr).
    exists s'. split; [exact Hrun|]. split; [exact Hw|]. split; [exact Hc|exact Hpr].
  - destruct (rate_limited_start
                (mkState (mkStore (mkConfig "http://a" (-2)) 1) 0 0 false None
                         [] [] [] RCheck 0%nat 0%nat None false)
                eq_refl eq_refl eq_refl) as [_ H].
    destruct (H ltac:(cbn; lia)) as (s' & Hrun & Hp & _ & Hw & _).
    exists s'. split; [exact Hrun|]. split; [exact Hp|exact Hw].
Defined.





Lemma rl_live_insert_same s w x y :
  workers s !! w = Some x -> live y = live x ->
  length (List.filter live (<[w := y]> (workers s)))
  = length (live_workers s).
Proof. intros Hw E. now apply filter_insert_same with (x := x). Qed.








Lemma rl_reachable_counter s : reachable s -> counter_in_range (reqCounter s).
Proof.
  intros [ls H].
  refine (rl_run_invariant (fun s => counter_in_range (reqCounter s)) _
            ls initial s _ H).
  - intros l s0 s1 Hc Hstep.
    destruct (rl_counter_step _ _ _ Hstep)
      as [->|[(w & env & _ & ->)|(a & b & _ & ->)]];
      [exact Hc|apply AddUint64_in_range|split; [lia|reflexivity]].
  - split; [cbn; lia|reflexivity].
Qed.

End RateLimitedSystem.

(** ** Restarting the pool *)

(** C2.  Closing the queue makes the workers of the outgoing generation
    leave their loop, but nothing stops the producer.  In the first run it
    waits to send on the full queue when [RestartWorkers] closes it, and
    its next step is a send on a closed channel: the program panics while
    the thread is at the join.  In the second run it is between two sends
    during the restart: it survives, and when [RestartWorkers] returns two
    producers are running, which then both fill the one new queue. *)
Theorem producer_outlives_its_generation :
  (exists s,
      RateLimited.run RateLimited.resize_schedule RateLimited.initial = Some s /\
      RateLimited.ctl s = RateLimited.RWait /\
      RateLimited.producers s = [RateLimited.PSend 0] /\
      RateLimited.chans s = [RateLimited.mkChan 1 1 true] /\
      RateLimited.panicked s = true) /\
  (exists s s2,
      RateLimited.run RateLimited.overlap_schedule RateLimited.initial = Some s /\
      RateLimited.ctl s = RateLimited.CMonitor /\
      RateLimited.panicked s = false /\
      RateLimited.producers s = [RateLimited.PEval; RateLimited.PEval] /\
      RateLimited.run [RateLimited.LProducer 0; RateLimited.LProducer 1;
                       RateLimited.LProducer 0; RateLimited.LProducer 1] s
      = Some s2 /\
      RateLimited.jobQueue s2 = Some 1%nat /\
      RateLimited.chans s2
      = [RateLimited.mkChan 1 0 true; RateLimited.mkChan 2 2 false]).
Proof.
  split.
  - eexists. split; [vm_compute; reflexivity|]. repeat split.
  - eexists. eexists. split; [vm_compute; reflexivity|].
    split; [reflexivity|]. split; [reflexivity|]. split; [reflexivity|].
    split; [vm_compute; reflexivity|]. split; reflexivity.
Qed.



(** C1.  Resizing a running pool fails in both variants.  In the simple
    variant, with two workers running and a configuration asking for four
    just loaded, [RestartWorkers] never gets past the join under any
    schedule, and the pool remains the two workers of the first client.
    In the rate-limited variant, with one worker running, the restart
    closes the queue on which the producer waits to send, and the program
    panics with the thread at the join and the pool still of one worker. *)
Theorem restart_of_running_pool_fails (ls : list Simple.Label)
    (s' : Simple.State) :
  Simple.run ls Simple.resize_state = Some s' ->
  Simple.run Simple.resize_schedule Simple.initial = Some Simple.resize_state /\
  Simple.at_join (Simple.ctl s') = true /\
  Simple.workers s'
  = [Simple.mkWorker 0 Simple.WLoop; Simple.mkWorker 0 Simple.WLoop] /\
  Simple.generation 1 s' = [] /\
  exists r,
    RateLimited.run RateLimited.resize_schedule RateLimited.initial = Some r /\
    RateLimited.ctl r = RateLimited.RWait /\
    RateLimited.workers r = [RateLimited.mkWorker 0 RateLimited.WStart] /\
    RateLimited.panicked r = true.
Proof.
  intros Hrun.
  assert (Simple.blocked Simple.resize_state) as Hb.
  { unfold Simple.blocked. cbn. split; [lia|auto]. }
  destruct (blocked_run _ _ _ Hb Hrun) as [Hb' Hw].
  split; [vm_compute; reflexivity|].
  split; [now apply blocked_at_join|].
  split; [exact Hw|].
  split; [unfold Simple.generation; now rewrite Hw|].
  eexists. split; [vm_compute; reflexivity|]. repeat split.
Qed.

Lemma restart_of_running_pool_fails_witness :
  exists s',
    Simple.run [Simple.LCtl;
                Simple.LWorker 0 (mkEnv (fun _ => true) (fun _ => DoOk 200)
                                        (fun _ => 0))]
               Simple.resize_state = Some s' /\
    Simple.at_join (Simple.ctl s') = true /\
    length (Simple.workers s') = 2%nat.
Proof.
  destruct (Simple.run
              [Simple.LCtl;
               Simple.LWorker 0 (mkEnv (fun _ => true) (fun _ => DoOk 200)
                                       (fun _ => 0))]
              Simple.resize_state) as [s'|] eqn:Hrun;
    [|vm_compute in Hrun; discriminate].
  exists s'. split; [reflexivity|].
  destruct (restart_of_running_pool_fails _ _ Hrun) as (_ & H1 & H2 & _).
  split; [exact H1|]. now rewrite H2.
Defined.

(** ** The counter in the two systems *)

(** X11.  In both variants a step of the program either leaves
    [reqCounter] as it is, or is a worker's step that adds one to it
    (modulo 2^64), or is the reporter's step that clears it: nothing else
    writes the counter and nothing ever decreases it but the reset.  In
    every reachable state it is a [uint64] value. *)
Theorem counter_only_counted_or_cleared :
  (forall l s s',
      Simple.step l s = Some s' ->
      Simple.reqCounter s' = Simple.reqCounter s \/
      (exists w env, l = Simple.LWorker w env /\
                     Simple.reqCounter s' = AddUint64 (Simple.reqCounter s) 1) \/
      (exists a b, l = Simple.LStats a b /\ Simple.reqCounter s' = 0)) /\
  (forall l s s',
      RateLimited.step l s = Some s' ->
      RateLimited.reqCounter s' = RateLimited.reqCounter s \/
      (exists w env, l = RateLimited.LWorker w env /\
                     RateLimited.reqCounter s'
                     = AddUint64 (RateLimited.reqCounter s) 1) \/
      (exists a b, l = RateLimited.LStats a b /\
                   RateLimited.reqCounter s' = 0)) /\
  (forall s, Simple.reachable s ->
             0 <= Simple.reqCounter s < uint64_modulus) /\
  (forall s, RateLimited.reachable s ->
             0 <= RateLimited.reqCounter s < uint64_modulus).
Proof.
  split; [exact simple_counter_step|].
  split; [exact rl_counter_step|].
  split.
  - intros s Hr. exact (proj1 (proj2 (simple_reachable_pool_ok s Hr))).
  - exact rl_reachable_counter.
Qed.

Lemma counter_only_counted_or_cleared_witness :
  exists s,
    RateLimited.run
      (RateLimited.LLoad (mkObs (Some 1) (Opened (Some (mkConfig "http://a" 1))))
         :: repeat RateLimited.LCtl 8
         ++ [RateLimited.LProducer 0; RateLimited.LProducer 0;
             RateLimited.LWorker 0 answering; RateLimited.LWorker 0 answering;
             RateLimited.LWorker 0 answering])
      RateLimited.initial = Some s /\
    0 <= RateLimited.reqCounter s < uint64_modulus /\
    RateLimited.reqCounter s = 1.
Proof.
  destruct (RateLimited.run
      (RateLimited.LLoad (mkObs (Some 1) (Opened (Some (mkConfig "http://a" 1))))
         :: repeat RateLimited.LCtl 8
         ++ [RateLimited.LProducer 0; RateLimited.LProducer 0;
             RateLimited.LWorker 0 answering; RateLimited.LWorker 0 answering;
             RateLimited.LWorker 0 answering])
      RateLimited.initial) as [s|] eqn:Hrun;
    [|vm_compute in Hrun; discriminate].
  exists s. split; [reflexivity|].
  destruct counter_only_counted_or_cleared as (_ & _ & _ & H).
  split; [apply H; eexists; exact Hrun|].
  vm_compute in Hrun. injection Hrun as <-. reflexivity.
Defined.
